(** * create_merge.py: merging witnessed meteorite falls with UFO sightings

    A shallow embedding of [src/create_merge.py] and the properties of its
    classifier and of its three aggregation passes.

    Conventions of the embedding.
    - The classifier is embedded twice. [assign_us_state_b64] is the source
      on binary64 doubles: the comparisons, the subtractions, the squares
      and the sum are the IEEE operations rounded to nearest, the literals
      are the doubles nearest to them, and [x ** 2] is taken as the
      correctly rounded product [x * x]. [assign_us_state] is the same loop
      in exact arithmetic on rationals ([Q]): the decimal literals are exact
      and [float('inf')] is the absent bound [None] of an [option Q]. The
      aggregators are stated over the exact classifier. The two classify
      the same points, and can choose different centroids only for a point
      within rounding error of the bisector of two centroids.
    - [a / b] on two integers and [round(x, 1)] are parameters of the
      aggregators; the quotient is absent where Python raises
      [OverflowError].
    - A Python [int] is a [Z].
    - A Python [str] is a [string] whose characters are the code points
      below 256; [String.length] is Python's [len].
    - [None] and a missing key are [None] of an [option] where the source
      treats the two alike.
    - A raised exception is the [Raise] branch of [result]. *)

From Stdlib Require Import QArith Ascii Floats.
From stdpp Require Import gmap strings list fin_maps sorting.

Local Open Scope Z_scope.

(** ** Exceptions *)

Inductive exn : Set :=
  TypeError | ValueError | ZeroDivisionError | OverflowError.

Inductive result (A : Type) : Type :=
| Ok (a : A)
| Raise (e : exn).

Arguments Ok {A} a.
Arguments Raise {A} e.

Definition rbind {A B : Type} (r : result A) (k : A → result B) : result B :=
  match r with
  | Ok a => k a
  | Raise e => Raise e
  end.

Notation "'let!' x ':=' r 'in' k" := (rbind r (λ x, k))
  (at level 10, x pattern, r at level 100, k at level 200).

(** A [for] loop whose body may raise: the state is threaded from left to
    right and the first exception leaves the loop. *)
Fixpoint for_each {S A : Type} (body : S → A → result S) (xs : list A) (s : S)
  : result S :=
  match xs with
  | [] => Ok s
  | x :: rest => let! s' := body s x in for_each body rest s'
  end.

(** ** The Geo-Classifier: [assign_us_state] *)

Section Geo.

Local Open Scope Q_scope.

Definition Qltb (x y : Q) : bool := negb (Qle_bool y x).

(** [state_centroids], in the order of the dict literal (which is the order
    in which [.items()] yields it). *)
Definition state_centroids : list (string * (Q * Q)) :=
  [ ("CA", (36.78, -119.42)); ("TX", (31.97, -99.90)); ("FL", (27.66, -81.52));
    ("NY", (42.17, -74.95)); ("PA", (41.20, -77.19)); ("IL", (40.63, -89.40));
    ("OH", (40.42, -82.91)); ("GA", (32.16, -82.90)); ("NC", (35.76, -79.02));
    ("MI", (44.31, -85.60)); ("NJ", (40.06, -74.41)); ("VA", (37.43, -78.66));
    ("WA", (47.75, -120.74)); ("AZ", (34.05, -111.09)); ("MA", (42.41, -71.38));
    ("TN", (35.52, -86.58)); ("IN", (40.27, -86.13)); ("MO", (38.57, -92.60));
    ("MD", (39.05, -76.64)); ("WI", (43.78, -88.79)); ("CO", (39.55, -105.78));
    ("MN", (46.73, -94.69)); ("SC", (34.00, -81.03)); ("AL", (32.32, -86.90));
    ("LA", (30.98, -91.96)); ("KY", (37.84, -84.27)); ("OR", (43.80, -120.55));
    ("OK", (35.47, -97.52)); ("CT", (41.60, -72.76)); ("UT", (39.32, -111.09));
    ("IA", (41.88, -93.10)); ("NV", (38.80, -116.42)); ("AR", (35.20, -91.83));
    ("MS", (32.35, -89.40)); ("KS", (38.53, -98.77)); ("NM", (34.52, -105.87));
    ("NE", (41.49, -99.90)); ("ID", (44.07, -114.74)); ("WV", (38.60, -80.45));
    ("ME", (45.25, -69.45)); ("MT", (46.88, -110.36)); ("ND", (47.55, -101.00));
    ("SD", (43.97, -99.90)); ("WY", (43.08, -107.29)); ("VT", (44.56, -72.58));
    ("NH", (43.19, -71.57)); ("DE", (38.91, -75.53)); ("RI", (41.58, -71.48)) ].

(** [24.0 < lat < 50.0 and -125.0 < lng < -66.0] *)
Definition in_box (lat lng : Q) : bool :=
  Qltb 24.0 lat && Qltb lat 50.0 && Qltb (-125.0) lng && Qltb lng (-66.0).

(** [d = (lat - slat)**2 + (lng - slng)**2] *)
Definition dist2 (lat lng : Q) (c : Q * Q) : Q :=
  (lat - fst c) ^ 2 + (lng - snd c) ^ 2.

(** [d < min_dist], where [min_dist] starts as [float('inf')]. *)
Definition below (d : Q) (min_dist : option Q) : bool :=
  match min_dist with
  | None => true
  | Some m => Qltb d m
  end.

(** The [for state, (slat, slng) in state_centroids.items()] loop, with its
    two variables [min_dist] and [closest]. *)
Fixpoint scan (lat lng : Q) (tbl : list (string * (Q * Q)))
    (min_dist : option Q) (closest : option string) : option string :=
  match tbl with
  | [] => closest
  | (state, c) :: rest =>
      let d := dist2 lat lng c in
      if below d min_dist
      then scan lat lng rest (Some d) (Some state)
      else scan lat lng rest min_dist closest
  end.

Definition assign_us_state (lat lng : option Q) : option string :=
  match lat, lng with
  | Some la, Some ln =>
      if negb (in_box la ln) then None
      else scan la ln state_centroids None None
  | _, _ => None
  end.

(** The open rectangle, as a proposition. *)
Definition inside_box (lat lng : Q) : Prop :=
  (24.0 < lat ∧ lat < 50.0) ∧ (-125.0 < lng ∧ lng < -66.0).

(** The 48 contiguous states, alphabetically by name. *)
Definition contiguous_us : list string :=
  [ "AL"; "AZ"; "AR"; "CA"; "CO"; "CT"; "DE"; "FL"; "GA"; "ID"; "IL"; "IN";
    "IA"; "KS"; "KY"; "LA"; "ME"; "MD"; "MA"; "MI"; "MN"; "MS"; "MO"; "MT";
    "NE"; "NV"; "NH"; "NJ"; "NM"; "NY"; "NC"; "ND"; "OH"; "OK"; "OR"; "PA";
    "RI"; "SC"; "SD"; "TN"; "TX"; "UT"; "VT"; "VA"; "WA"; "WV"; "WI"; "WY" ].

(** Alaska, Hawaii, the federal district and the inhabited territories. *)
Definition non_contiguous : list string :=
  [ "AK"; "HI"; "DC"; "PR"; "GU"; "VI"; "AS"; "MP" ].

Definition codes : list string := map fst state_centroids.

End Geo.

Set Warnings "-inexact-float".

(** ** The Geo-Classifier on doubles *)









(** The classification the words "the centroid at the least squared distance,
    the first of the table where several are" describe, in exact arithmetic:
    [s] is the code of an entry that every earlier entry is strictly farther
    than and no later entry is nearer than. *)
Definition nearest_centroid (lat lng : Q) (tbl : list (string * (Q * Q)))
    (s : string) : Prop :=
  ∃ pre c post,
    tbl = pre ++ (s, c) :: post
    ∧ Forall (λ e, dist2 lat lng c < dist2 lat lng e.2)%Q pre
    ∧ Forall (λ e, dist2 lat lng c <= dist2 lat lng e.2)%Q post.

(** ** Bounds on doubles *)



(** ** Python strings *)

Definition is_decimal (c : ascii) : bool :=
  let n := N_of_ascii c in ((48 <=? n) && (n <=? 57))%N.

(** [c.isdigit()] for a code point below 256: the ten decimal digits and the
    three superscript digits U+00B2, U+00B3 and U+00B9. *)
Definition char_isdigit (c : ascii) : bool :=
  let n := N_of_ascii c in
  (is_decimal c || (n =? 178) || (n =? 179) || (n =? 185))%N.

Fixpoint all_chars (p : ascii → bool) (s : string) : bool :=
  match s with
  | EmptyString => true
  | String c rest => p c && all_chars p rest
  end.

(** [s.isdigit()]: every character is a digit and there is at least one. *)
Definition isdigit (s : string) : bool :=
  negb (String.eqb s "") && all_chars char_isdigit s.

Definition digit_value (c : ascii) : Z := Z.of_N (N_of_ascii c) - 48.

Fixpoint decimal_value (s : string) (acc : Z) : option Z :=
  match s with
  | EmptyString => Some acc
  | String c rest =>
      if is_decimal c then decimal_value rest (10 * acc + digit_value c)
      else None
  end.

(** [int(s)] for a string [s] with [s.isdigit()], the only strings the
    source converts: the decimal value when every character is a decimal
    digit, and [ValueError] when a superscript digit occurs. *)
Definition int_of_digits (s : string) : result Z :=
  match decimal_value s 0 with
  | Some v => Ok v
  | None => Raise ValueError
  end.

(** [s[:4]] *)
Definition prefix4 (s : string) : string := String.substring 0 4 s.

(** Truth value of an optional string: [None] and [''] are false. *)
Definition truthy (s : option string) : bool :=
  match s with
  | Some s => negb (String.eqb s "")
  | None => false
  end.

(** ** Input records *)

Record meteorite : Type := {
  name : option string;
  date : option string;
  latitude : option Q;
  longitude : option Q;
  mass_g : option Q;
  meteorite_class : option string;
  fall_type : option string
}.

(** The [year] of a UFO-by-year entry: absent or null, an integer, or a
    string. *)
Inductive year_field : Type :=
| YNone
| YInt (y : Z)
| YStr (s : string).

Record ufo_year_entry : Type := {
  uy_year : year_field;
  uy_count : option Z
}.

Record ufo_state_entry : Type := {
  us_state : option string;
  us_count : option Z
}.

(** [entry.get('count', 0)] *)
Definition get_count (c : option Z) : Z := default 0 c.

(** ** Output records *)

Record timeline_entry : Type := {
  t_year : Z;
  t_meteorite_falls : Z;
  t_ufo_sightings : Z
}.

Record state_entry (F : Type) : Type := {
  s_state : string;
  s_meteorite_falls : Z;
  s_ufo_sightings : Z;
  s_ufo_per_meteorite : option F
}.

Arguments s_state {F} _.
Arguments s_meteorite_falls {F} _.
Arguments s_ufo_sightings {F} _.
Arguments s_ufo_per_meteorite {F} _.

Record detail_record : Type := {
  d_name : option string;
  d_latitude : option Q;
  d_longitude : option Q;
  d_date : option string;
  d_year : option Z;
  d_mass_g : option Q;
  d_meteorite_class : option string;
  d_fall_type : option string;
  d_us_state : option string;
  d_is_us : bool
}.

(** ** The date rule shared by the temporal aggregator and the detail builder

    [if date and len(date) >= 4 and date[:4].isdigit(): year = int(date[:4])],
    with [year] left at [None] otherwise. *)
Definition date_guard (d : option string) : bool :=
  match d with
  | Some s =>
      negb (String.eqb s "") && (4 <=? String.length s)%nat && isdigit (prefix4 s)
  | None => false
  end.

Definition year_of_date (d : option string) : result (option Z) :=
  match d with
  | Some s =>
      if date_guard d
      then let! year := int_of_digits (prefix4 s) in Ok (Some year)
      else Ok None
  | None => Ok None
  end.

(** ** [build_temporal_comparison] *)

(** Body of the first loop: [met_by_year[year] += 1] for a year in range. *)
Definition count_fall (met_by_year : gmap Z Z) (m : meteorite)
  : result (gmap Z Z) :=
  let! year := year_of_date (date m) in
  match year with
  | Some y =>
      if (1900 <=? y) && (y <=? 2025)
      then Ok (<[y := default 0 (met_by_year !! y) + 1]> met_by_year)
      else Ok met_by_year
  | None => Ok met_by_year
  end.

(** Body of the second loop. [year and 1900 <= year <= 2025] is false for a
    missing year, for [0] and for [''], compares an integer, and raises
    [TypeError] when it compares [1900] with a non-empty string; [int(year)]
    is only reached with an integer. *)
Definition record_ufo_year (ufo_years : gmap Z Z) (entry : ufo_year_entry)
  : result (gmap Z Z) :=
  let count := get_count (uy_count entry) in
  match uy_year entry with
  | YNone => Ok ufo_years
  | YInt y =>
      if negb (y =? 0) && (1900 <=? y) && (y <=? 2025)
      then Ok (<[y := count]> ufo_years)
      else Ok ufo_years
  | YStr s =>
      if String.eqb s "" then Ok ufo_years else Raise TypeError
  end.

Definition timeline_of (met_by_year ufo_years : gmap Z Z) (year : Z)
  : timeline_entry :=
  {| t_year := year;
     t_meteorite_falls := default 0 (met_by_year !! year);
     t_ufo_sightings := default 0 (ufo_years !! year) |}.

Definition build_temporal_comparison
    (meteorites : list meteorite) (ufo_by_year : list ufo_year_entry)
  : result (list timeline_entry) :=
  let! met_by_year := for_each count_fall meteorites ∅ in
  let! ufo_years := for_each record_ufo_year ufo_by_year ∅ in
  let all_years := merge_sort Z.le (elements (dom met_by_year ∪ dom ufo_years)) in
  Ok (map (timeline_of met_by_year ufo_years) all_years).

(** ** [build_geographic_comparison], [build_meteorite_detail] and [main]

    The quotient [ufo / met] and [round(_, 1)] are binary floating-point
    operations; they are left abstract, so that what is proved holds for
    whatever values they return. *)

(** Python's order on [str]: code point by code point. *)
Definition str_le (a b : string) : Prop := String.leb a b = true.

#[global] Instance str_le_dec : RelDecision str_le.
Proof. intros a b. unfold str_le. apply _. Defined.

(** A loop that appends one computed element per item. *)
Fixpoint map_each {A B : Type} (f : A → result B) (xs : list A)
  : result (list B) :=
  match xs with
  | [] => Ok []
  | x :: rest =>
      let! y := f x in
      let! ys := map_each f rest in
      Ok (y :: ys)
  end.

Record record_counts : Type := {
  rc_temporal_comparison : nat;
  rc_state_comparison : nat;
  rc_meteorite_detail : nat
}.

Record source_info : Type := {
  src_source : string;
  src_url : string;
  src_records : Z;
  src_license : string
}.

Record metadata : Type := {
  md_title : string;
  md_created : string;
  md_meteorite_falls : source_info;
  md_ufo_sightings : source_info;
  md_record_counts : record_counts
}.

Record dataset (F : Type) : Type := {
  ds_metadata : metadata;
  ds_temporal_comparison : list timeline_entry;
  ds_state_comparison : list (state_entry F);
  ds_meteorite_detail : list detail_record
}.

Arguments ds_metadata {F} _.
Arguments ds_temporal_comparison {F} _.
Arguments ds_state_comparison {F} _.
Arguments ds_meteorite_detail {F} _.

(** What [main] computes: the document it writes and the two counts of US
    meteorites it prints. *)
Record run (F : Type) : Type := {
  run_dataset : dataset F;
  run_us_meteorites : Z;
  run_us_count : Z
}.

Arguments run_dataset {F} _.
Arguments run_us_meteorites {F} _.
Arguments run_us_count {F} _.

Section Pipeline.

Context {pyfloat : Type}.

(** The float nearest to the quotient of two integers, the divisor other
    than 0; [None] when the quotient is beyond the range of the floats. *)
Variable truediv : Z → Z → option pyfloat.

(** [round(x, 1)] on a float. *)
Variable round1 : pyfloat → pyfloat.

(** [a / b] on integers: it raises [ZeroDivisionError] on a zero divisor
    and [OverflowError] on a quotient beyond the range of the floats. *)
Definition py_truediv (a b : Z) : result pyfloat :=
  if b =? 0 then Raise ZeroDivisionError
  else match truediv a b with
       | Some q => Ok q
       | None => Raise OverflowError
       end.

(** Body of the first loop of [build_geographic_comparison]; the state is
    [(met_by_state, us_meteorites)]. *)
Definition count_state (acc : gmap string Z * Z) (m : meteorite)
  : gmap string Z * Z :=
  let state := assign_us_state (latitude m) (longitude m) in
  match state with
  | Some s =>
      if truthy state
      then (<[s := default 0 (acc.1 !! s) + 1]> (acc.1), acc.2 + 1)
      else acc
  | None => acc
  end.

(** Body of the second loop: [if state and len(state) == 2]. *)
Definition record_ufo_state (ufo_states : gmap string Z)
    (entry : ufo_state_entry) : gmap string Z :=
  let count := get_count (us_count entry) in
  match us_state entry with
  | Some s =>
      if truthy (Some s) && (String.length s =? 2)%nat
      then <[s := count]> ufo_states
      else ufo_states
  | None => ufo_states
  end.

(** [round(ufo / met, 1) if met > 0 else None] *)
Definition ratio_of (ufo met : Z) : result (option pyfloat) :=
  if 0 <? met
  then let! q := py_truediv ufo met in Ok (Some (round1 q))
  else Ok None.

Definition state_row (met_by_state ufo_states : gmap string Z) (state : string)
  : result (state_entry pyfloat) :=
  let met := default 0 (met_by_state !! state) in
  let ufo := default 0 (ufo_states !! state) in
  let! ratio := ratio_of ufo met in
  Ok {| s_state := state;
        s_meteorite_falls := met;
        s_ufo_sightings := ufo;
        s_ufo_per_meteorite := ratio |}.

Definition build_geographic_comparison
    (meteorites : list meteorite) (ufo_by_state : list ufo_state_entry)
  : result (list (state_entry pyfloat) * Z) :=
  let '(met_by_state, us_meteorites) := foldl count_state (∅, 0) meteorites in
  let ufo_states := foldl record_ufo_state ∅ ufo_by_state in
  let all_states :=
    merge_sort str_le (elements (dom met_by_state ∪ dom ufo_states)) in
  let! state_comparison := map_each (state_row met_by_state ufo_states) all_states in
  Ok (state_comparison, us_meteorites).

(** One iteration of [build_meteorite_detail]. *)
Definition detail_of (m : meteorite) : result detail_record :=
  let! year := year_of_date (date m) in
  let state := assign_us_state (latitude m) (longitude m) in
  Ok {| d_name := name m;
        d_latitude := latitude m;
        d_longitude := longitude m;
        d_date := if truthy (date m) then date m else None;
        d_year := year;
        d_mass_g := mass_g m;
        d_meteorite_class := meteorite_class m;
        d_fall_type := fall_type m;
        d_us_state := state;
        d_is_us := match state with Some _ => true | None => false end |}.

Definition build_meteorite_detail (meteorites : list meteorite)
  : result (list detail_record) :=
  map_each detail_of meteorites.

(** [sum(1 for m in met_detail if m['is_us'])] *)
Definition count_is_us (met_detail : list detail_record) : Z :=
  Z.of_nat (length (filter (λ r, d_is_us r = true) met_detail)).

(** [sum(e.get('count', 0) for e in ufo_by_state)] *)
Definition total_count (ufo_by_state : list ufo_state_entry) : Z :=
  foldl (λ acc e, acc + get_count (us_count e)) 0 ufo_by_state.

(** [main], from the three loaded inputs and the date string of
    [datetime.now()] to the document it saves. *)
Definition main (created : string) (meteorites : list meteorite)
    (ufo_by_year : list ufo_year_entry) (ufo_by_state : list ufo_state_entry)
  : result (run pyfloat) :=
  let! timeline := build_temporal_comparison meteorites ufo_by_year in
  let! geo := build_geographic_comparison meteorites ufo_by_state in
  let! met_detail := build_meteorite_detail meteorites in
  let us_count := count_is_us met_detail in
  Ok {| run_dataset :=
          {| ds_metadata :=
               {| md_title := "Meteorites & UFOs: Detection Bias Study";
                  md_created := created;
                  md_meteorite_falls :=
                    {| src_source := "Meteoritical Bulletin (via NASA)";
                       src_url := "https://www.lpi.usra.edu/meteor/";
                       src_records := Z.of_nat (length meteorites);
                       src_license := "Public Domain" |};
                  md_ufo_sightings :=
                    {| src_source := "National UFO Reporting Center (NUFORC)";
                       src_url := "https://nuforc.org/";
                       src_records := total_count ufo_by_state;
                       src_license := "Public Domain" |};
                  md_record_counts :=
                    {| rc_temporal_comparison := length timeline;
                       rc_state_comparison := length geo.1;
                       rc_meteorite_detail := length met_detail |} |};
             ds_temporal_comparison := timeline;
             ds_state_comparison := geo.1;
             ds_meteorite_detail := met_detail |};
        run_us_meteorites := geo.2;
        run_us_count := us_count |}.

(** The row [state_row] returns, when it returns. *)
Definition row_of (met_by_state ufo_states : gmap string Z) (state : string)
  : state_entry pyfloat :=
  let met := default 0 (met_by_state !! state) in
  let ufo := default 0 (ufo_states !! state) in
  {| s_state := state;
     s_meteorite_falls := met;
     s_ufo_sightings := ufo;
     s_ufo_per_meteorite :=
       if 0 <? met then round1 <$> truediv ufo met else None |}.

(** The quotient of the row of [state], when the row has one, is a float. *)
Definition ratio_in_range (met_by_state ufo_states : gmap string Z)
    (state : string) : Prop :=
  0 < default 0 (met_by_state !! state) →
  is_Some (truediv (default 0 (ufo_states !! state))
                   (default 0 (met_by_state !! state))).

#[global] Instance ratio_in_range_dec met_by_state ufo_states state :
  Decision (ratio_in_range met_by_state ufo_states state).
Proof. unfold ratio_in_range. apply _. Defined.

End Pipeline.

(** ** Vocabulary of the statements

    What the properties below count and look up, defined on the inputs
    alone. *)

(** The value of the first four characters of the date, when the date has
    at least four characters and these are digits. *)
Definition date_prefix_year (m : meteorite) : option Z :=
  match date m with
  | Some s =>
      if (4 <=? String.length s)%nat && isdigit (prefix4 s)
      then decimal_value (prefix4 s) 0
      else None
  | None => None
  end.

(** The record [m] is a fall of year [y], a year of 1900..2025. *)
Definition falls_in (y : Z) (m : meteorite) : bool :=
  match date_prefix_year m with
  | Some v => (v =? y) && (1900 <=? y) && (y <=? 2025)
  | None => false
  end.

Definition count_falls (ms : list meteorite) (y : Z) : Z :=
  Z.of_nat (length (filter (λ m, falls_in y m = true) ms)).

(** The year an entry of the UFO-by-year source is recorded under. *)
Definition ufo_entry_year (e : ufo_year_entry) : option Z :=
  match uy_year e with
  | YInt y => if (1900 <=? y) && (y <=? 2025) then Some y else None
  | _ => None
  end.

(** The count the source records for [y]: that of its last entry for [y]. *)
Fixpoint ufo_recorded (us : list ufo_year_entry) (y : Z) : option Z :=
  match us with
  | [] => None
  | e :: rest =>
      match ufo_recorded rest y with
      | Some c => Some c
      | None =>
          if decide (ufo_entry_year e = Some y)
          then Some (get_count (uy_count e))
          else None
      end
  end.

(** The state an entry of the UFO-by-state source is recorded under: its
    [state] when that has exactly two characters. *)
Definition ufo_entry_state (e : ufo_state_entry) : option string :=
  match us_state e with
  | Some s => if (String.length s =? 2)%nat then Some s else None
  | None => None
  end.

Fixpoint ufo_state_recorded (us : list ufo_state_entry) (s : string)
  : option Z :=
  match us with
  | [] => None
  | e :: rest =>
      match ufo_state_recorded rest s with
      | Some c => Some c
      | None =>
          if decide (ufo_entry_state e = Some s)
          then Some (get_count (us_count e))
          else None
      end
  end.

(** The record is classified as a US state. *)
Definition classified (m : meteorite) : bool :=
  match assign_us_state (latitude m) (longitude m) with
  | Some _ => true
  | None => false
  end.

(** A raised exception, whichever it is. *)
Definition raises {A : Type} (r : result A) : Prop :=
  match r with
  | Ok _ => False
  | Raise _ => True
  end.

(** The number of records classified as state [s]. *)
Definition state_falls (ms : list meteorite) (s : string) : Z :=
  Z.of_nat (length
    (filter (λ m, assign_us_state (latitude m) (longitude m) = Some s) ms)).

(** Every state with a meteorite has a ratio within the floats. *)
Definition ratios_in_range {F : Type} (truediv : Z → Z → option F)
    (ms : list meteorite) (us : list ufo_state_entry) : Prop :=
  ∀ s, 0 < state_falls ms s →
       is_Some (truediv (default 0 (ufo_state_recorded us s))
                        (state_falls ms s)).

(** Some state with a meteorite has a ratio beyond the floats. *)
Definition ratio_overflows {F : Type} (truediv : Z → Z → option F)
    (ms : list meteorite) (us : list ufo_state_entry) : Prop :=
  ∃ s, 0 < state_falls ms s
       ∧ truediv (default 0 (ufo_state_recorded us s)) (state_falls ms s)
         = None.

(** The detail record of a meteorite whose date rule does not raise: the
    fields passed through, the empty date turned into [None], the year of
    the four-digit prefix with no bound on it, and the classification. *)
Definition detail_view (m : meteorite) : detail_record :=
  {| d_name := name m;
     d_latitude := latitude m;
     d_longitude := longitude m;
     d_date := if decide (date m = Some EmptyString) then None else date m;
     d_year := date_prefix_year m;
     d_mass_g := mass_g m;
     d_meteorite_class := meteorite_class m;
     d_fall_type := fall_type m;
     d_us_state := assign_us_state (latitude m) (longitude m);
     d_is_us := classified m |}.


(** ** Sample inputs *)

(** A meteorite record with the given date and coordinates and its other
    fields absent. *)
Definition fall (d : option string) (lat lng : option Q) : meteorite :=
  {| name := None; date := d; latitude := lat; longitude := lng;
     mass_g := None; meteorite_class := None; fall_type := None |}.

(** SUPERSCRIPT TWO, U+00B2. *)
Definition superscript_two : ascii := ascii_of_N 178.

(** A date whose first four characters are superscript twos. *)
Definition superscript_date : string :=
  String superscript_two (String superscript_two
    (String superscript_two (String superscript_two "-01-01"))).

Definition sample_meteorites : list meteorite :=
  [ fall (Some "1969-03-15") (Some (3678 # 100)) (Some (-11942 # 100));
    fall (Some "") None None;
    fall (Some "1850-06-01") (Some (40 # 1)) (Some (-100 # 1));
    fall (Some "1969-11-02") (Some (612 # 10)) (Some (-1499 # 10));
    fall None (Some (40 # 1)) None ].

Definition sample_ufo_by_year : list ufo_year_entry :=
  [ {| uy_year := YInt 1969; uy_count := Some 5 |};
    {| uy_year := YInt 2000; uy_count := Some 7 |};
    {| uy_year := YInt 1800; uy_count := Some 3 |};
    {| uy_year := YNone; uy_count := Some 4 |};
    {| uy_year := YInt 2000; uy_count := Some 9 |} ].

Definition sample_ufo_by_state : list ufo_state_entry :=
  [ {| us_state := Some "CA"; us_count := Some 4000 |};
    {| us_state := Some "TX"; us_count := Some 10 |};
    {| us_state := Some "Texas"; us_count := Some 99 |};
    {| us_state := None; us_count := Some 1 |};
    {| us_state := Some "TX"; us_count := Some 20 |} ].

(** The two float operations as uninterpreted terms, to run the examples:
    [Round1 (TrueDiv a b)] stands for [round(a / b, 1)]. *)
Inductive float_term : Type :=
| TrueDiv (a b : Z)
| Round1 (x : float_term).

(** The quotient as a term, within the range of binary64: a quotient of
    absolute value [2^1024 - 2^970] or more rounds beyond the greatest
    float. *)
Definition checked_div (a b : Z) : option float_term :=
  if Z.abs b * (2 ^ 1024 - 2 ^ 970) <=? Z.abs a then None
  else Some (TrueDiv a b).

(** A count no float holds. *)
Definition huge_count : Z := 10 ^ 400.

(** ** More vocabulary *)

(** The date passes the guard of the date rule and yet has a character
    among its first four that [int] does not take. *)
Definition bad_date (m : meteorite) : bool :=
  match date m with
  | Some s => date_guard (Some s) && negb (all_chars is_decimal (prefix4 s))
  | None => false
  end.

(** The year of 1900..2025 a record is counted under, if any. *)
Definition fall_year (m : meteorite) : option Z :=
  match date_prefix_year m with
  | Some v => if (1900 <=? v) && (v <=? 2025) then Some v else None
  | None => None
  end.

(** The year of the entry is a non-empty string. *)
Definition string_year (e : ufo_year_entry) : bool :=
  match uy_year e with
  | YStr s => negb (String.eqb s "")
  | _ => false
  end.

(** The entry is passed over by the second loop of
    [build_temporal_comparison]: no year, an integer outside 1900..2025, or
    the empty string. *)
Definition year_skipped (e : ufo_year_entry) : bool :=
  match uy_year e with
  | YNone => true
  | YInt y => negb ((1900 <=? y) && (y <=? 2025))
  | YStr s => String.eqb s ""
  end.

Definition Zsum (l : list Z) : Z := foldr Z.add 0 l.

(** ** The report [main] prints *)

(** [max(xs, key=key)] from a first item on: a later item replaces the best
    one only when its key is strictly greater. *)
Fixpoint max_from {A : Type} (key : A → Z) (best : A) (xs : list A) : A :=
  match xs with
  | [] => best
  | x :: rest =>
      if key best <? key x then max_from key x rest
      else max_from key best rest
  end.

(** [max(xs, key=key)]; it raises [ValueError] on an empty list. *)
Definition py_max {A : Type} (key : A → Z) (xs : list A) : result A :=
  match xs with
  | [] => Raise ValueError
  | x :: rest => Ok (max_from key x rest)
  end.

(** The peak years, under the guard [if timeline:]. *)
Definition peak_years (timeline : list timeline_entry)
  : result (option (timeline_entry * timeline_entry)) :=
  match timeline with
  | [] => Ok None
  | _ :: _ =>
      let! peak_met := py_max t_meteorite_falls timeline in
      let! peak_ufo := py_max t_ufo_sightings timeline in
      Ok (Some (peak_met, peak_ufo))
  end.

Section Ranking.

Context {pyfloat : Type}.

(** [x < y] on floats. *)
Variable flt : pyfloat → pyfloat → bool.

(** [[s for s in state_data if s['ufo_per_meteorite'] is not None]], each
    row with its sort key. *)
Definition with_ratio (state_data : list (state_entry pyfloat))
  : list (state_entry pyfloat * pyfloat) :=
  omap (λ s, (λ q, (s, q)) <$> s_ufo_per_meteorite s) state_data.

(** [sorted] compares keys with [<] only and keeps items of equal keys in
    their order. On keys that [<] orders, as it orders floats other than
    NaN, every such sort returns the same list; it is written here as an
    insertion sort. *)
Fixpoint insert_by (x : state_entry pyfloat * pyfloat)
    (l : list (state_entry pyfloat * pyfloat))
  : list (state_entry pyfloat * pyfloat) :=
  match l with
  | [] => [x]
  | y :: rest =>
      if flt y.2 x.2 then y :: insert_by x rest else x :: y :: rest
  end.

Definition sort_by (l : list (state_entry pyfloat * pyfloat))
  : list (state_entry pyfloat * pyfloat) :=
  foldr insert_by [] l.

(** [sorted(xs, key=..., reverse=True)]: reverse, sort, reverse. *)
Definition sorted_reverse (l : list (state_entry pyfloat * pyfloat))
  : list (state_entry pyfloat * pyfloat) :=
  rev (sort_by (rev l)).

Definition ranked (state_data : list (state_entry pyfloat))
  : list (state_entry pyfloat) :=
  map fst (sorted_reverse (with_ratio state_data)).

(** [ranked[:5]] *)
Definition top5 (state_data : list (state_entry pyfloat))
  : list (state_entry pyfloat) :=
  take 5 (ranked state_data).

End Ranking.

(** * Properties *)

(** ** The classifier *)

Section GeoFacts.

Local Open Scope Q_scope.

Lemma Qltb_lt (x y : Q) : Qltb x y = true ↔ x < y.
Proof.
  unfold Qltb. rewrite negb_true_iff. split.
  - intros H. apply Qnot_le_lt. rewrite <- Qle_bool_iff. congruence.
  - intros H. destruct (Qle_bool y x) eqn:E; [|done].
    apply Qle_bool_iff in E. by apply Qlt_not_le in H.
Qed.

Lemma Qltb_ge (x y : Q) : Qltb x y = false ↔ y <= x.
Proof.
  unfold Qltb. rewrite negb_false_iff. apply Qle_bool_iff.
Qed.

Lemma in_box_inside (la ln : Q) : in_box la ln = true ↔ inside_box la ln.
Proof.
  unfold in_box, inside_box. rewrite !andb_true_iff, !Qltb_lt. tauto.
Qed.

(** The scan from a running minimum [m] held by [s0]: either nothing in the
    table is strictly below [m], or the answer is the first entry of the
    table among those at the least distance. *)
Lemma scan_running (la ln : Q) (tbl : list (string * (Q * Q))) :
  ∀ (m : Q) (s0 : string),
    (scan la ln tbl (Some m) (Some s0) = Some s0
     ∧ Forall (λ e, m <= dist2 la ln e.2) tbl)
    ∨ (∃ pre s c post,
         tbl = pre ++ (s, c) :: post
         ∧ scan la ln tbl (Some m) (Some s0) = Some s
         ∧ dist2 la ln c < m
         ∧ Forall (λ e, dist2 la ln c < dist2 la ln e.2) pre
         ∧ Forall (λ e, dist2 la ln c <= dist2 la ln e.2) post).
Proof.
  induction tbl as [|[s1 c1] rest IH]; intros m s0; simpl.
  - left. split; [done | constructor].
  - destruct (Qltb (dist2 la ln c1) m) eqn:E.
    + apply Qltb_lt in E. right.
      destruct (IH (dist2 la ln c1) s1) as [[Hs Hall] | (pre & s & c & post & -> & Hs & Hlt & Hpre & Hpost)].
      * exists [], s1, c1, rest. split_and!; [done | done | done | constructor | done].
      * exists ((s1, c1) :: pre), s, c, post. split_and!; [done | done | | | done].
        -- by eapply Qlt_trans.
        -- constructor; done.
    + apply Qltb_ge in E.
      destruct (IH m s0) as [[Hs Hall] | (pre & s & c & post & -> & Hs & Hlt & Hpre & Hpost)].
      * left. split; [done | by constructor].
      * right. exists ((s1, c1) :: pre), s, c, post. split_and!; [done | done | done | | done].
        constructor; [|done]. simpl. by eapply Qlt_le_trans.
Qed.

(** The whole scan of a non-empty table returns the first entry at the least
    distance: everything before it is strictly farther, nothing after it is
    nearer. *)
Lemma scan_first_nearest (la ln : Q) (tbl : list (string * (Q * Q))) :
  tbl ≠ [] →
  ∃ pre s c post,
    tbl = pre ++ (s, c) :: post
    ∧ scan la ln tbl None None = Some s
    ∧ Forall (λ e, dist2 la ln c < dist2 la ln e.2) pre
    ∧ Forall (λ e, dist2 la ln c <= dist2 la ln e.2) post.
Proof.
  destruct tbl as [|[s1 c1] rest]; [done | intros _]. simpl.
  destruct (scan_running la ln rest (dist2 la ln c1) s1)
    as [[Hs Hall] | (pre & s & c & post & -> & Hs & Hlt & Hpre & Hpost)].
  - exists [], s1, c1, rest. split_and!; [done | done | constructor | done].
  - exists ((s1, c1) :: pre), s, c, post. split_and!; [done | done | | done].
    constructor; done.
Qed.

Lemma assign_in_box (la ln : Q) :
  inside_box la ln →
  assign_us_state (Some la) (Some ln) = scan la ln state_centroids None None.
Proof.
  intros H. apply in_box_inside in H. unfold assign_us_state. by rewrite H.
Qed.

Lemma assign_out_of_box (la ln : Q) :
  ¬ inside_box la ln → assign_us_state (Some la) (Some ln) = None.
Proof.
  intros H. unfold assign_us_state.
  destruct (in_box la ln) eqn:E; [|done]. by apply in_box_inside in E.
Qed.

Lemma assign_in_box_nearest (la ln : Q) :
  inside_box la ln →
  ∃ pre s c post,
    state_centroids = pre ++ (s, c) :: post
    ∧ assign_us_state (Some la) (Some ln) = Some s
    ∧ Forall (λ e, dist2 la ln c < dist2 la ln e.2) pre
    ∧ Forall (λ e, dist2 la ln c <= dist2 la ln e.2) post.
Proof.
  intros H. rewrite (assign_in_box _ _ H).
  by apply scan_first_nearest.
Qed.

Lemma assign_some_in_codes (lat lng : option Q) (s : string) :
  assign_us_state lat lng = Some s → s ∈ codes.
Proof.
  destruct lat as [la|], lng as [ln|]; try done.
  destruct (in_box la ln) eqn:E.
  - apply in_box_inside in E as Hin.
    destruct (assign_in_box_nearest la ln Hin) as (pre & s' & c & post & Htbl & Hs & _).
    rewrite Hs. intros [= <-]. unfold codes. rewrite Htbl.
    rewrite map_app. apply elem_of_app. right. simpl. left.
  - unfold assign_us_state. by rewrite E.
Qed.

End GeoFacts.

Section GeoClaims.

Local Open Scope Q_scope.







Lemma codes_are_contiguous : ∀ c : string, c ∈ codes ↔ c ∈ contiguous_us.
Proof.
  assert (Forall (λ c, c ∈ contiguous_us) codes) as H1
    by (apply (bool_decide_unpack _); vm_compute; reflexivity).
  assert (Forall (λ c, c ∈ codes) contiguous_us) as H2
    by (apply (bool_decide_unpack _); vm_compute; reflexivity).
  rewrite Forall_forall in H1, H2. intros c. split; auto.
Qed.

End GeoClaims.

Section GeoTheorems.

Local Open Scope Q_scope.

(** In exact arithmetic the classifier returns [None] exactly when a
    coordinate is [None] or the point is outside the open box 24 < lat < 50,
    -125 < lng < -66; for a point inside the box it returns the code of a
    centroid at the least squared distance, and of the first such centroid
    in the order of the table: every entry before it is strictly farther
    and no entry after it is nearer. *)
Theorem assign_us_state_spec (lat lng : option Q) :
  (assign_us_state lat lng = None ↔
     lat = None ∨ lng = None
     ∨ ∃ la ln, lat = Some la ∧ lng = Some ln ∧ ¬ inside_box la ln)
  ∧ (∀ la ln, lat = Some la → lng = Some ln → inside_box la ln →
       ∃ pre s c post,
         state_centroids = pre ++ (s, c) :: post
         ∧ assign_us_state lat lng = Some s
         ∧ Forall (λ e, dist2 la ln c < dist2 la ln e.2) pre
         ∧ Forall (λ e, dist2 la ln c <= dist2 la ln e.2) post).
Proof.
  split.
  - destruct lat as [la|], lng as [ln|];
      [| split; [intros _; right; left; reflexivity | reflexivity]
       | split; [intros _; left; reflexivity | reflexivity]
       | split; [intros _; left; reflexivity | reflexivity]].
    split.
    + intros Hnone. right. right. exists la, ln.
      split; [reflexivity | split; [reflexivity |]].
      intros Hin.
      destruct (assign_in_box_nearest la ln Hin) as (? & s & ? & ? & _ & Hs & _).
      rewrite Hs in Hnone. discriminate.
    + intros [H | [H | (la' & ln' & Ha & Hn & Hout)]];
        [discriminate | discriminate |].
      injection Ha as <-. injection Hn as <-.
      apply assign_out_of_box. exact Hout.
  - intros la ln -> -> Hin. apply assign_in_box_nearest. exact Hin.
Qed.

Lemma assign_us_state_spec_witness :
  inside_box 40 (-100)
  ∧ ∃ pre s c post,
      state_centroids = pre ++ (s, c) :: post
      ∧ assign_us_state (Some 40) (Some (-100)) = Some s
      ∧ Forall (λ e, dist2 40 (-100) c < dist2 40 (-100) e.2) pre
      ∧ Forall (λ e, dist2 40 (-100) c <= dist2 40 (-100) e.2) post.
Proof.
  assert (inside_box 40 (-100)) as Hin
    by (apply in_box_inside; vm_compute; reflexivity).
  split; [exact Hin |].
  exact (proj2 (assign_us_state_spec (Some 40) (Some (-100)))
           40 (-100) eq_refl eq_refl Hin).
Defined.

(** C6. The centroid table has 48 entries with pairwise different codes,
    which are exactly the codes of the 48 contiguous states; Alaska, Hawaii,
    the federal district and the territories are not among them; and every
    point inside the box is classified as some code of the table, never as
    [None]. *)
Theorem centroid_table_covers_box :
  length state_centroids = 48%nat
  ∧ NoDup codes
  ∧ (∀ c : string, c ∈ codes ↔ c ∈ contiguous_us)
  ∧ Forall (λ c, c ∉ codes) non_contiguous
  ∧ (∀ la ln : Q, inside_box la ln →
       ∃ s, assign_us_state (Some la) (Some ln) = Some s ∧ s ∈ codes).
Proof.
  split; [reflexivity |].
  split; [apply (bool_decide_unpack _); vm_compute; reflexivity |].
  split; [exact codes_are_contiguous |].
  split; [apply (bool_decide_unpack _); vm_compute; reflexivity |].
  intros la ln Hin.
  destruct (assign_in_box_nearest la ln Hin) as (? & s & ? & ? & _ & Hs & _).
  exists s. split; [exact Hs |]. eapply assign_some_in_codes. exact Hs.
Qed.

Lemma centroid_table_covers_box_witness :
  inside_box 25 (-67)
  ∧ ∃ s, assign_us_state (Some 25) (Some (-67)) = Some s ∧ s ∈ codes.
Proof.
  assert (inside_box 25 (-67)) as Hin
    by (apply in_box_inside; vm_compute; reflexivity).
  split; [exact Hin |].
  exact (proj2 (proj2 (proj2 (proj2 centroid_table_covers_box))) 25 (-67) Hin).
Defined.



End GeoTheorems.

(** ** Binary64 arithmetic: exponent bounds and order *)

Section Digits.







End Digits.

Section Shift.









End Shift.

Section Operations.









End Operations.

Section PrimOperations.





End PrimOperations.

Section FloatOrder.







End FloatOrder.

Section PrimOrder.



End PrimOrder.

(** ** The classifier on doubles *)

Section GeoB64Facts.







End GeoB64Facts.

Section GeoB64Theorems.



End GeoB64Theorems.

Section NearTie.

Local Open Scope Q_scope.

(** The exact classifier returns the nearest centroid, the first of the
    table where several are nearest. *)
Lemma assign_us_state_nearest (la ln : Q) :
  inside_box la ln →
  ∃ s, assign_us_state (Some la) (Some ln) = Some s
       ∧ nearest_centroid la ln state_centroids s.
Proof.
  intros Hin.
  destruct (assign_in_box_nearest la ln Hin)
    as (pre & s & c & post & Htbl & Hs & Hpre & Hpost).
  exists s. split; [exact Hs |]. exists pre, c, post. auto.
Qed.



End NearTie.

(** ** The temporal aggregator *)

Section TemporalFacts.

Lemma year_of_date_prefix (m : meteorite) (r : option Z) :
  year_of_date (date m) = Ok r → r = date_prefix_year m.
Proof.
  unfold year_of_date, date_prefix_year, date_guard, int_of_digits.
  destruct (date m) as [s|]; [| intros [= <-]; reflexivity].
  destruct (String.eqb s "") eqn:E.
  - apply String.eqb_eq in E. subst s. simpl. intros [= <-]. reflexivity.
  - cbn [negb andb].
    destruct ((4 <=? String.length s)%nat && isdigit (prefix4 s)).
    + destruct (decimal_value (prefix4 s) 0); simpl;
        [intros [= <-]; reflexivity | discriminate].
    + intros [= <-]. reflexivity.
Qed.

Lemma decimal_value_total (s : string) :
  all_chars is_decimal s = true → ∀ acc, is_Some (decimal_value s acc).
Proof.
  induction s as [|c s IH]; simpl; intros H acc.
  - eauto.
  - apply andb_true_iff in H as [Hc Hs]. rewrite Hc. apply IH. exact Hs.
Qed.

(** The date rule returns when the digits it converts are decimal digits. *)
Lemma year_of_date_returns (d : option string) :
  (∀ s, d = Some s → date_guard d = true →
        all_chars is_decimal (prefix4 s) = true) →
  ∃ r, year_of_date d = Ok r.
Proof.
  intros H. unfold year_of_date, int_of_digits.
  destruct d as [s|]; [| eauto].
  destruct (date_guard (Some s)) eqn:G; [| eauto].
  destruct (decimal_value_total (prefix4 s) (H s eq_refl eq_refl) 0) as [v ->].
  simpl. eauto.
Qed.

Lemma falls_in_range (y : Z) (m : meteorite) :
  falls_in y m = true → 1900 ≤ y ≤ 2025.
Proof.
  unfold falls_in. destruct (date_prefix_year m); [| discriminate].
  rewrite !andb_true_iff. lia.
Qed.

Lemma count_fall_lookup (acc acc' : gmap Z Z) (m : meteorite) :
  count_fall acc m = Ok acc' →
  ∀ y, acc' !! y
       = if falls_in y m then Some (default 0 (acc !! y) + 1) else acc !! y.
Proof.
  unfold count_fall.
  destruct (year_of_date (date m)) as [r|e] eqn:E; [| discriminate]. simpl.
  apply year_of_date_prefix in E. subst r. unfold falls_in.
  destruct (date_prefix_year m) as [v|]; [| intros [= <-]; reflexivity].
  destruct ((1900 <=? v) && (v <=? 2025)) eqn:R; intros [= <-] y.
  - destruct (decide (v = y)) as [->|Hne].
    + rewrite lookup_insert_eq, Z.eqb_refl. cbn [andb]. rewrite R. reflexivity.
    + rewrite lookup_insert_ne by exact Hne.
      destruct (v =? y) eqn:V; [lia | reflexivity].
  - destruct ((v =? y) && (1900 <=? y) && (y <=? 2025)) eqn:F; [| reflexivity].
    rewrite !andb_true_iff in F. rewrite andb_false_iff in R. lia.
Qed.

Lemma count_falls_cons (m : meteorite) (ms : list meteorite) (y : Z) :
  count_falls (m :: ms) y
  = (if falls_in y m then 1 else 0) + count_falls ms y.
Proof.
  unfold count_falls. destruct (falls_in y m) eqn:F.
  - rewrite filter_cons_True by exact F. simpl length. lia.
  - rewrite filter_cons_False by congruence. lia.
Qed.

Lemma count_falls_nonneg (ms : list meteorite) (y : Z) : 0 ≤ count_falls ms y.
Proof. unfold count_falls. lia. Qed.

Lemma count_falls_pos (ms : list meteorite) (y : Z) :
  0 < count_falls ms y ↔ ∃ m, m ∈ ms ∧ falls_in y m = true.
Proof.
  induction ms as [|m ms IH].
  - split; [unfold count_falls; simpl; lia | intros (m & Hm & _); inversion Hm].
  - rewrite count_falls_cons. pose proof (count_falls_nonneg ms y).
    destruct (falls_in y m) eqn:F.
    + split; [intros _; exists m; split; [left | exact F] | lia].
    + split.
      * intros Hp. destruct (proj1 IH) as (m' & Hm' & F'); [lia |].
        exists m'. split; [by right | exact F'].
      * intros (m' & Hm' & F'). apply elem_of_cons in Hm' as [-> | Hm'];
          [congruence |].
        assert (0 < count_falls ms y) by (apply IH; eauto). lia.
Qed.

(** The first loop: every year holds its earlier value plus the number of
    falls of that year. *)
Lemma count_fall_loop (ms : list meteorite) :
  ∀ acc acc' : gmap Z Z,
    for_each count_fall ms acc = Ok acc' →
    ∀ y, acc' !! y
         = if decide (count_falls ms y = 0) then acc !! y
           else Some (default 0 (acc !! y) + count_falls ms y).
Proof.
  induction ms as [|m ms IH]; intros acc acc' Hrun y.
  - simpl in Hrun. injection Hrun as <-. reflexivity.
  - simpl in Hrun. destruct (count_fall acc m) as [acc1|] eqn:E1; [| discriminate].
    simpl in Hrun. rewrite (IH _ _ Hrun y), (count_fall_lookup _ _ _ E1 y).
    rewrite count_falls_cons. pose proof (count_falls_nonneg ms y).
    destruct (falls_in y m); repeat case_decide; try lia; simpl;
      try reflexivity; f_equal; lia.
Qed.

Lemma ufo_entry_year_range (e : ufo_year_entry) (y : Z) :
  ufo_entry_year e = Some y → 1900 ≤ y ≤ 2025.
Proof.
  unfold ufo_entry_year. destruct (uy_year e); try discriminate.
  destruct ((1900 <=? y0) && (y0 <=? 2025)) eqn:R; [| discriminate].
  intros [= <-]. rewrite andb_true_iff in R. lia.
Qed.

Lemma record_ufo_year_lookup (acc acc' : gmap Z Z) (e : ufo_year_entry) :
  record_ufo_year acc e = Ok acc' →
  ∀ y, acc' !! y
       = if decide (ufo_entry_year e = Some y)
         then Some (get_count (uy_count e)) else acc !! y.
Proof.
  unfold record_ufo_year, ufo_entry_year.
  destruct (uy_year e) as [|v|s].
  - intros [= <-] y. case_decide; [discriminate | reflexivity].
  - assert (negb (v =? 0) && (1900 <=? v) && (v <=? 2025)
            = (1900 <=? v) && (v <=? 2025)) as ->.
    { destruct (v =? 0) eqn:V; [| reflexivity].
      assert (v = 0) as -> by lia. reflexivity. }
    destruct ((1900 <=? v) && (v <=? 2025)); intros [= <-] y.
    + destruct (decide (v = y)) as [->|Hne].
      * rewrite lookup_insert_eq. case_decide; [reflexivity | congruence].
      * rewrite lookup_insert_ne by exact Hne.
        case_decide; [congruence | reflexivity].
    + case_decide; [discriminate | reflexivity].
  - destruct (String.eqb s ""); [| discriminate].
    intros [= <-] y. case_decide; [discriminate | reflexivity].
Qed.

(** The second loop: a year holds the count of its last entry, or its
    earlier value when the source has no entry for it. *)
Lemma record_ufo_year_loop (us : list ufo_year_entry) :
  ∀ acc acc' : gmap Z Z,
    for_each record_ufo_year us acc = Ok acc' →
    ∀ y, acc' !! y
         = match ufo_recorded us y with
           | Some c => Some c
           | None => acc !! y
           end.
Proof.
  induction us as [|e us IH]; intros acc acc' Hrun y.
  - simpl in Hrun. injection Hrun as <-. reflexivity.
  - simpl in Hrun.
    destruct (record_ufo_year acc e) as [acc1|] eqn:E1; [| discriminate].
    simpl in Hrun. rewrite (IH _ _ Hrun y). simpl.
    destruct (ufo_recorded us y); [reflexivity |].
    rewrite (record_ufo_year_lookup _ _ _ E1 y).
    case_decide; reflexivity.
Qed.

Lemma ufo_recorded_some (us : list ufo_year_entry) (y : Z) :
  is_Some (ufo_recorded us y) ↔ ∃ e, e ∈ us ∧ ufo_entry_year e = Some y.
Proof.
  induction us as [|e us IH]; simpl.
  - split; [intros [? ?]; discriminate | intros (e & He & _); inversion He].
  - destruct (ufo_recorded us y) as [c|] eqn:R.
    + split; [| eauto]. intros _.
      destruct (proj1 IH) as (e' & He' & Hy); [eauto |].
      exists e'. split; [by right | exact Hy].
    + case_decide as D.
      * split; [| eauto]. intros _. exists e. split; [left | exact D].
      * split; [intros [? ?]; discriminate |].
        intros (e' & He' & Hy). apply elem_of_cons in He' as [-> | He'];
          [congruence |].
        apply IH. eauto.
Qed.

End TemporalFacts.

Section TemporalTheorems.

Lemma StronglySorted_le_lt (l : list Z) :
  StronglySorted Z.le l → NoDup l → StronglySorted Z.lt l.
Proof.
  induction 1 as [|a l Hl IH Ha]; intros Hnd.
  - constructor.
  - apply NoDup_cons in Hnd as [Hnotin Hnd]. constructor; [by apply IH |].
    rewrite Forall_forall in Ha |- *. intros x Hx.
    assert (a ≠ x) by congruence.
    specialize (Ha x Hx). lia.
Qed.

(** [sorted(set(...))]: strictly ascending, with the elements of the set. *)
Lemma sorted_set_spec (S : gset Z) :
  StronglySorted Z.lt (merge_sort Z.le (elements S))
  ∧ ∀ y, y ∈ merge_sort Z.le (elements S) ↔ y ∈ S.
Proof.
  split.
  - apply StronglySorted_le_lt.
    + apply (StronglySorted_merge_sort Z.le); apply _.
    + rewrite merge_sort_Permutation. apply NoDup_elements.
  - intros y. rewrite merge_sort_Permutation. apply elem_of_elements.
Qed.

Lemma timeline_years (a b : gmap Z Z) (l : list Z) :
  map t_year (map (timeline_of a b) l) = l.
Proof.
  induction l as [|y l IH]; simpl; [reflexivity | by rewrite IH].
Qed.

(** The two maps the loops of [build_temporal_comparison] leave behind. *)
Lemma temporal_maps (ms : list meteorite) (us : list ufo_year_entry)
    (met ufo : gmap Z Z) :
  for_each count_fall ms ∅ = Ok met →
  for_each record_ufo_year us ∅ = Ok ufo →
  (∀ y, met !! y
        = if decide (count_falls ms y = 0) then None
          else Some (count_falls ms y))
  ∧ (∀ y, ufo !! y = ufo_recorded us y).
Proof.
  intros Hmet Hufo. split; intros y.
  - rewrite (count_fall_loop _ _ _ Hmet y), lookup_empty. simpl.
    case_decide; [reflexivity | f_equal].
  - rewrite (record_ufo_year_loop _ _ _ Hufo y), lookup_empty.
    destruct (ufo_recorded us y); reflexivity.
Qed.

(** The temporal aggregator returns as soon as no date has a superscript
    digit among its first four characters and no year is a non-empty
    string. *)
Lemma build_temporal_comparison_returns
    (ms : list meteorite) (us : list ufo_year_entry) :
  Forall (λ m, ∀ s, date m = Some s → date_guard (date m) = true →
               all_chars is_decimal (prefix4 s) = true) ms →
  Forall (λ e, ∀ s, uy_year e = YStr s → s = "") us →
  ∃ tl, build_temporal_comparison ms us = Ok tl.
Proof.
  intros Hms Hus. unfold build_temporal_comparison.
  assert (∀ acc, ∃ met, for_each count_fall ms acc = Ok met) as Hmet.
  { induction Hms as [|m ms Hm _ IH]; intros acc; simpl; [eauto |].
    unfold count_fall at 1.
    destruct (year_of_date_returns (date m) Hm) as [r ->]. simpl.
    destruct r as [y|]; [destruct ((1900 <=? y) && (y <=? 2025)) |];
      simpl; apply IH. }
  assert (∀ acc, ∃ ufo, for_each record_ufo_year us acc = Ok ufo) as Hufo.
  { induction Hus as [|e us He _ IH]; intros acc; simpl; [eauto |].
    unfold record_ufo_year at 1.
    destruct (uy_year e) as [|y|s] eqn:Y.
    - simpl. apply IH.
    - destruct (negb (y =? 0) && (1900 <=? y) && (y <=? 2025)); simpl; apply IH.
    - rewrite (He s eq_refl). simpl. apply IH. }
  destruct (Hmet ∅) as [met ->], (Hufo ∅) as [ufo ->]. simpl. eauto.
Qed.

(** C1. When the temporal aggregator returns a timeline, its years are
    strictly ascending; a year is in it exactly when some meteorite record
    is a fall of that year (its date starts with four digits whose value is
    the year, within 1900..2025) or the UFO-by-year source has an entry for
    that year within 1900..2025; every year of it is within 1900..2025; and
    each entry carries the number of falls of its year and the count the
    UFO source records for it, [0] when it records none. *)
Theorem timeline_spec
    (ms : list meteorite) (us : list ufo_year_entry) (tl : list timeline_entry) :
  build_temporal_comparison ms us = Ok tl →
  StronglySorted Z.lt (map t_year tl)
  ∧ (∀ y, y ∈ map t_year tl ↔
          (∃ m, m ∈ ms ∧ falls_in y m = true)
          ∨ (∃ e, e ∈ us ∧ ufo_entry_year e = Some y))
  ∧ (∀ y, y ∈ map t_year tl → 1900 ≤ y ≤ 2025)
  ∧ Forall (λ t, t_meteorite_falls t = count_falls ms (t_year t)
                 ∧ t_ufo_sightings t
                   = default 0 (ufo_recorded us (t_year t))) tl.
Proof.
  unfold build_temporal_comparison.
  destruct (for_each count_fall ms ∅) as [met|] eqn:E1; [| discriminate].
  destruct (for_each record_ufo_year us ∅) as [ufo|] eqn:E2; [| discriminate].
  simpl. intros [= <-].
  destruct (temporal_maps ms us met ufo E1 E2) as [Hmet Hufo].
  destruct (sorted_set_spec (dom met ∪ dom ufo)) as [Hsorted Hmem].
  rewrite timeline_years.
  assert (∀ y, y ∈ dom met ∪ dom ufo ↔
               (∃ m, m ∈ ms ∧ falls_in y m = true)
               ∨ (∃ e, e ∈ us ∧ ufo_entry_year e = Some y)) as Hdom.
  { intros y. rewrite elem_of_union, !elem_of_dom, Hmet, Hufo.
    rewrite <- count_falls_pos, <- ufo_recorded_some.
    pose proof (count_falls_nonneg ms y).
    case_decide.
    - split; [intros [[? ?] | ?]; [discriminate | by right] |].
      intros [? | ?]; [lia | by right].
    - split; [intros _; left; lia | intros _; left; eauto]. }
  split; [exact Hsorted |].
  split; [intros y; rewrite Hmem; apply Hdom |].
  split.
  - intros y Hy. apply Hmem, Hdom in Hy as [(m & _ & F) | (e & _ & U)].
    + by eapply falls_in_range.
    + by eapply ufo_entry_year_range.
  - apply Forall_map. apply Forall_forall. intros y _. simpl.
    rewrite Hmet, Hufo. split; [| reflexivity].
    case_decide; simpl; congruence.
Qed.

End TemporalTheorems.

Section TemporalExamples.

Lemma timeline_spec_witness :
  ∃ tl,
    build_temporal_comparison sample_meteorites sample_ufo_by_year = Ok tl
    ∧ map t_year tl = [1969; 2000]
    ∧ StronglySorted Z.lt (map t_year tl)
    ∧ (∀ y, y ∈ map t_year tl ↔
            (∃ m, m ∈ sample_meteorites ∧ falls_in y m = true)
            ∨ (∃ e, e ∈ sample_ufo_by_year ∧ ufo_entry_year e = Some y))
    ∧ (∀ y, y ∈ map t_year tl → 1900 ≤ y ≤ 2025)
    ∧ Forall (λ t, t_meteorite_falls t = count_falls sample_meteorites (t_year t)
                   ∧ t_ufo_sightings t
                     = default 0 (ufo_recorded sample_ufo_by_year (t_year t)))
        tl.
Proof.
  eexists. split; [vm_compute; reflexivity |].
  split; [reflexivity |].
  apply (timeline_spec sample_meteorites sample_ufo_by_year).
  vm_compute. reflexivity.
Defined.

(** C5. A year given as a numeric string is not taken: comparing [1900]
    with it raises [TypeError] and the aggregator returns nothing. *)
Theorem string_year_raises :
  build_temporal_comparison []
    [ {| uy_year := YStr "1995"; uy_count := Some 10 |} ]
  = Raise TypeError.
Proof. vm_compute. reflexivity. Qed.

(** The same loop takes the integer year. *)
Lemma integer_year_taken :
  build_temporal_comparison []
    [ {| uy_year := YInt 1995; uy_count := Some 10 |} ]
  = Ok [ {| t_year := 1995; t_meteorite_falls := 0; t_ufo_sightings := 10 |} ].
Proof. vm_compute. reflexivity. Qed.

(** Any non-empty string year stops the loop with [TypeError], whatever was
    recorded before it. *)
Lemma record_ufo_year_string (acc : gmap Z Z) (s : string) (c : option Z) :
  s ≠ "" →
  record_ufo_year acc {| uy_year := YStr s; uy_count := c |} = Raise TypeError.
Proof.
  intros Hs. unfold record_ufo_year. simpl.
  destruct (String.eqb s "") eqn:E; [| reflexivity].
  apply String.eqb_eq in E. contradiction.
Qed.

End TemporalExamples.

(** ** The geographic aggregator and the detail builder *)

Section GeographicFacts.

Context {pyfloat : Type}.
Variable truediv : Z → Z → option pyfloat.
Variable round1 : pyfloat → pyfloat.

Lemma codes_not_empty (s : string) : s ∈ codes → s ≠ "".
Proof.
  assert (Forall (λ c : string, c ≠ "") codes) as H
    by (apply (bool_decide_unpack _); vm_compute; reflexivity).
  rewrite Forall_forall in H. apply H.
Qed.

Lemma count_state_unfold (acc : gmap string Z * Z) (m : meteorite) :
  count_state acc m
  = match assign_us_state (latitude m) (longitude m) with
    | Some s => (<[s := default 0 (acc.1 !! s) + 1]> (acc.1), acc.2 + 1)
    | None => acc
    end.
Proof.
  unfold count_state.
  destruct (assign_us_state (latitude m) (longitude m)) as [s|] eqn:E;
    [| reflexivity].
  apply assign_some_in_codes, codes_not_empty in E.
  unfold truthy. destruct (String.eqb s "") eqn:B; [| reflexivity].
  apply String.eqb_eq in B. contradiction.
Qed.

Lemma state_falls_cons (m : meteorite) (ms : list meteorite) (s : string) :
  state_falls (m :: ms) s
  = (if decide (assign_us_state (latitude m) (longitude m) = Some s)
     then 1 else 0) + state_falls ms s.
Proof.
  unfold state_falls. case_decide as D.
  - rewrite filter_cons_True by exact D. simpl length. lia.
  - rewrite filter_cons_False by exact D. lia.
Qed.

Lemma state_falls_nonneg (ms : list meteorite) (s : string) :
  0 ≤ state_falls ms s.
Proof. unfold state_falls. lia. Qed.

Lemma state_falls_pos (ms : list meteorite) (s : string) :
  0 < state_falls ms s ↔
  ∃ m, m ∈ ms ∧ assign_us_state (latitude m) (longitude m) = Some s.
Proof.
  induction ms as [|m ms IH].
  - split; [unfold state_falls; simpl; lia | intros (m & Hm & _); inversion Hm].
  - rewrite state_falls_cons. pose proof (state_falls_nonneg ms s).
    case_decide as D.
    + split; [intros _; exists m; split; [left | exact D] | lia].
    + split.
      * intros Hp. destruct (proj1 IH) as (m' & Hm' & F'); [lia |].
        exists m'. split; [by right | exact F'].
      * intros (m' & Hm' & F'). apply elem_of_cons in Hm' as [-> | Hm'];
          [congruence |].
        assert (0 < state_falls ms s) by (apply IH; eauto). lia.
Qed.

Lemma classified_cons (m : meteorite) (ms : list meteorite) :
  Z.of_nat (length (filter (λ m, classified m = true) (m :: ms)))
  = (if classified m then 1 else 0)
    + Z.of_nat (length (filter (λ m, classified m = true) ms)).
Proof.
  destruct (classified m) eqn:C.
  - rewrite filter_cons_True by exact C. simpl length. lia.
  - rewrite filter_cons_False by congruence. lia.
Qed.

(** The first loop of [build_geographic_comparison]: the counter of every
    state grows by the number of records classified as that state, and the
    running total by the number of classified records. *)
Lemma count_state_loop (ms : list meteorite) :
  ∀ acc : gmap string Z * Z,
    (∀ s, (foldl count_state acc ms).1 !! s
          = if decide (state_falls ms s = 0) then acc.1 !! s
            else Some (default 0 (acc.1 !! s) + state_falls ms s))
    ∧ (foldl count_state acc ms).2
      = acc.2 + Z.of_nat (length (filter (λ m, classified m = true) ms)).
Proof.
  induction ms as [|m ms IH]; intros acc.
  - split; [intros s; reflexivity | simpl; lia].
  - cbn [foldl]. destruct (IH (count_state acc m)) as [IH1 IH2]. split.
    + intros s. rewrite IH1, state_falls_cons, count_state_unfold.
      pose proof (state_falls_nonneg ms s).
      destruct (assign_us_state (latitude m) (longitude m)) as [s'|] eqn:A.
      * cbn [fst]. destruct (decide (s' = s)) as [->|Hne].
        -- rewrite lookup_insert_eq.
           rewrite (decide_True (P := Some s = Some s)) by reflexivity.
           repeat case_decide; try lia; simpl; f_equal; lia.
        -- rewrite lookup_insert_ne by exact Hne.
           rewrite (decide_False (P := Some s' = Some s)) by congruence.
           repeat case_decide; try lia; reflexivity.
      * rewrite (decide_False (P := None = Some s)) by discriminate.
        repeat case_decide; try lia; reflexivity.
    + rewrite IH2, classified_cons, count_state_unfold. unfold classified.
      destruct (assign_us_state (latitude m) (longitude m)); simpl; lia.
Qed.

Lemma record_ufo_state_lookup (acc : gmap string Z) (e : ufo_state_entry) :
  ∀ s, record_ufo_state acc e !! s
       = if decide (ufo_entry_state e = Some s)
         then Some (get_count (us_count e)) else acc !! s.
Proof.
  intros s. unfold record_ufo_state, ufo_entry_state.
  destruct (us_state e) as [s'|];
    [| case_decide; [discriminate | reflexivity]].
  destruct (String.length s' =? 2)%nat eqn:L.
  - assert (truthy (Some s') = true) as ->.
    { unfold truthy. destruct s'; [discriminate | reflexivity]. }
    cbn [andb]. destruct (decide (s' = s)) as [->|Hne].
    + rewrite lookup_insert_eq. case_decide; [reflexivity | congruence].
    + rewrite lookup_insert_ne by exact Hne.
      case_decide; [congruence | reflexivity].
  - rewrite andb_false_r. case_decide; [discriminate | reflexivity].
Qed.

(** The second loop: a state holds the count of its last two-character
    entry, or its earlier value when the source has none. *)
Lemma record_ufo_state_loop (us : list ufo_state_entry) :
  ∀ (acc : gmap string Z) (s : string),
    foldl record_ufo_state acc us !! s
    = match ufo_state_recorded us s with
      | Some c => Some c
      | None => acc !! s
      end.
Proof.
  induction us as [|e us IH]; intros acc s.
  - reflexivity.
  - cbn [foldl]. rewrite IH. simpl.
    destruct (ufo_state_recorded us s); [reflexivity |].
    rewrite record_ufo_state_lookup. case_decide; reflexivity.
Qed.

Lemma ufo_state_recorded_some (us : list ufo_state_entry) (s : string) :
  is_Some (ufo_state_recorded us s) ↔
  ∃ e, e ∈ us ∧ ufo_entry_state e = Some s.
Proof.
  induction us as [|e us IH]; simpl.
  - split; [intros [? ?]; discriminate | intros (e & He & _); inversion He].
  - destruct (ufo_state_recorded us s) as [c|] eqn:R.
    + split; [| eauto]. intros _.
      destruct (proj1 IH) as (e' & He' & Hy); [eauto |].
      exists e'. split; [by right | exact Hy].
    + case_decide as D.
      * split; [| eauto]. intros _. exists e. split; [left | exact D].
      * split; [intros [? ?]; discriminate |].
        intros (e' & He' & Hy). apply elem_of_cons in He' as [-> | He'];
          [congruence |].
        apply IH. eauto.
Qed.

(** A row is built unless its quotient is beyond the floats. The divisor is
    positive whenever the division is reached, so [ZeroDivisionError] is
    not raised. *)
Lemma state_row_outcome (met ufo : gmap string Z) (state : string) :
  state_row truediv round1 met ufo state
  = if 0 <? default 0 (met !! state)
    then match truediv (default 0 (ufo !! state))
                       (default 0 (met !! state)) with
         | Some _ => Ok (row_of truediv round1 met ufo state)
         | None => Raise OverflowError
         end
    else Ok (row_of truediv round1 met ufo state).
Proof.
  unfold state_row, row_of, ratio_of, py_truediv.
  destruct (0 <? default 0 (met !! state)) eqn:P; [| reflexivity].
  destruct (default 0 (met !! state) =? 0) eqn:Z0; [lia |].
  destruct (truediv _ _); reflexivity.
Qed.

(** The loop over the states stops with [OverflowError] at the first
    quotient beyond the floats. *)
Lemma map_each_state_row (met ufo : gmap string Z) (l : list string) :
  map_each (state_row truediv round1 met ufo) l
  = if decide (Forall (ratio_in_range truediv met ufo) l)
    then Ok (map (row_of truediv round1 met ufo) l)
    else Raise OverflowError.
Proof.
  induction l as [|s l IH].
  - rewrite decide_True by constructor. reflexivity.
  - cbn [map_each map]. rewrite state_row_outcome, IH.
    assert (∀ r : result (list (state_entry pyfloat)),
              ratio_in_range truediv met ufo s →
              (let! y := Ok (row_of truediv round1 met ufo s) in
               let! ys := (if decide (Forall (ratio_in_range truediv met ufo) l)
                           then Ok (map (row_of truediv round1 met ufo) l)
                           else Raise OverflowError) in
               Ok (y :: ys))
              = if decide (Forall (ratio_in_range truediv met ufo) (s :: l))
                then Ok (row_of truediv round1 met ufo s
                           :: map (row_of truediv round1 met ufo) l)
                else Raise OverflowError) as Hok.
    { intros _ Hs. cbn [rbind].
      destruct (decide (Forall (ratio_in_range truediv met ufo) l)) as [F | F].
      - rewrite decide_True by (constructor; assumption). reflexivity.
      - rewrite decide_False; [reflexivity |].
        intros H. apply F. apply Forall_cons in H as [_ H]. exact H. }
    destruct (0 <? default 0 (met !! s)) eqn:P.
    + destruct (truediv (default 0 (ufo !! s)) (default 0 (met !! s)))
        as [q|] eqn:T.
      * apply (Hok (Ok [])). intros _. rewrite T. eauto.
      * cbn [rbind]. rewrite decide_False; [reflexivity |].
        intros H. apply Forall_cons in H as [H _].
        destruct H as [q Hq]; [apply Z.ltb_lt, P |].
        rewrite T in Hq. discriminate Hq.
    + apply (Hok (Ok [])). intros Hpos. apply Z.ltb_ge in P. lia.
Qed.

End GeographicFacts.

Section AggregatorShapes.

Context {pyfloat : Type}.
Variable truediv : Z → Z → option pyfloat.
Variable round1 : pyfloat → pyfloat.

(** What [build_temporal_comparison] returns, when it returns. *)
Lemma temporal_shape
    (ms : list meteorite) (us : list ufo_year_entry) (tl : list timeline_entry) :
  build_temporal_comparison ms us = Ok tl →
  ∃ met ufo : gmap Z Z,
    (∀ y, met !! y
          = if decide (count_falls ms y = 0) then None
            else Some (count_falls ms y))
    ∧ (∀ y, ufo !! y = ufo_recorded us y)
    ∧ tl = map (timeline_of met ufo)
             (merge_sort Z.le (elements (dom met ∪ dom ufo))).
Proof.
  unfold build_temporal_comparison.
  destruct (for_each count_fall ms ∅) as [met|] eqn:E1; [| discriminate].
  destruct (for_each record_ufo_year us ∅) as [ufo|] eqn:E2; [| discriminate].
  simpl. intros [= <-].
  destruct (temporal_maps ms us met ufo E1 E2) as [Hmet Hufo].
  exists met, ufo. auto.
Qed.

Lemma elem_of_sorted_states (S : gset string) (s : string) :
  s ∈ merge_sort str_le (elements S) ↔ s ∈ S.
Proof. rewrite merge_sort_Permutation. apply elem_of_elements. Qed.

(** What [build_geographic_comparison] does: it returns the rows of the
    sorted states and the US total, unless the quotient of some row is
    beyond the floats. *)
Lemma geographic_shape (ms : list meteorite) (us : list ufo_state_entry) :
  ∃ met ufo : gmap string Z,
    (∀ s, met !! s
          = if decide (state_falls ms s = 0) then None
            else Some (state_falls ms s))
    ∧ (∀ s, ufo !! s = ufo_state_recorded us s)
    ∧ build_geographic_comparison truediv round1 ms us
      = if decide (Forall (ratio_in_range truediv met ufo)
                     (merge_sort str_le (elements (dom met ∪ dom ufo))))
        then Ok (map (row_of truediv round1 met ufo)
                   (merge_sort str_le (elements (dom met ∪ dom ufo))),
                 Z.of_nat (length (filter (λ m, classified m = true) ms)))
        else Raise OverflowError.
Proof.
  unfold build_geographic_comparison.
  destruct (count_state_loop ms (∅, 0)) as [H1 H2].
  destruct (foldl count_state (∅, 0) ms) as [met n].
  cbn [fst snd] in H1, H2.
  exists met, (foldl record_ufo_state ∅ us). split; [| split].
  - intros s. rewrite H1, lookup_empty. simpl.
    case_decide; [reflexivity | f_equal].
  - intros s. rewrite record_ufo_state_loop, lookup_empty.
    destruct (ufo_state_recorded us s); reflexivity.
  - rewrite map_each_state_row. case_decide; [| reflexivity].
    cbn [rbind]. rewrite H2. reflexivity.
Qed.

(** What [build_geographic_comparison] returns, when it returns. *)
Lemma geographic_returns (ms : list meteorite) (us : list ufo_state_entry)
    (tbl : list (state_entry pyfloat)) (n : Z) :
  build_geographic_comparison truediv round1 ms us = Ok (tbl, n) →
  ∃ met ufo : gmap string Z,
    (∀ s, met !! s
          = if decide (state_falls ms s = 0) then None
            else Some (state_falls ms s))
    ∧ (∀ s, ufo !! s = ufo_state_recorded us s)
    ∧ tbl = map (row_of truediv round1 met ufo)
              (merge_sort str_le (elements (dom met ∪ dom ufo)))
    ∧ n = Z.of_nat (length (filter (λ m, classified m = true) ms))
    ∧ Forall (ratio_in_range truediv met ufo)
        (merge_sort str_le (elements (dom met ∪ dom ufo))).
Proof.
  intros Hrun.
  destruct (geographic_shape ms us) as (met & ufo & Hmet & Hufo & Hshape).
  rewrite Hshape in Hrun. case_decide as F; [| discriminate Hrun].
  injection Hrun as <- <-. exists met, ufo. auto.
Qed.

(** The recorded falls of a state, as the first loop leaves them. *)
Lemma met_lookup_falls (ms : list meteorite) (met : gmap string Z) :
  (∀ s, met !! s
        = if decide (state_falls ms s = 0) then None
          else Some (state_falls ms s)) →
  ∀ s, default 0 (met !! s) = state_falls ms s.
Proof.
  intros Hmet s. rewrite Hmet. case_decide as D; cbn; [symmetry; exact D |].
  reflexivity.
Qed.

(** The exceptions of [build_geographic_comparison]: it returns when every
    ratio is within the floats and raises [OverflowError] otherwise, and
    nothing else. *)
Lemma geographic_outcome (ms : list meteorite) (us : list ufo_state_entry) :
  (ratios_in_range truediv ms us →
   ∃ tbl n, build_geographic_comparison truediv round1 ms us = Ok (tbl, n))
  ∧ (ratio_overflows truediv ms us →
     build_geographic_comparison truediv round1 ms us = Raise OverflowError)
  ∧ (∀ e, build_geographic_comparison truediv round1 ms us = Raise e →
          e = OverflowError)
  ∧ (∀ tbl n,
       build_geographic_comparison truediv round1 ms us = Ok (tbl, n) →
       ratios_in_range truediv ms us).
Proof.
  destruct (geographic_shape ms us) as (met & ufo & Hmet & Hufo & Hshape).
  pose proof (met_lookup_falls ms met Hmet) as Hfalls.
  assert (∀ s, ratio_in_range truediv met ufo s ↔
               (0 < state_falls ms s →
                is_Some (truediv (default 0 (ufo_state_recorded us s))
                                 (state_falls ms s)))) as Hrange.
  { intros s. unfold ratio_in_range. rewrite Hfalls, Hufo. reflexivity. }
  assert (∀ s, 0 < state_falls ms s →
               s ∈ merge_sort str_le (elements (dom met ∪ dom ufo))) as Hin.
  { intros s Hs. apply elem_of_sorted_states, elem_of_union. left.
    apply elem_of_dom. rewrite Hmet. rewrite decide_False by lia. eauto. }
  rewrite Hshape. split; [| split; [| split]].
  - intros Hall. rewrite decide_True; [eauto |].
    apply Forall_forall. intros s _. apply Hrange, Hall.
  - intros (s & Hs & Hnone). rewrite decide_False; [reflexivity |].
    intros F. rewrite Forall_forall in F.
    destruct (proj1 (Hrange s) (F s (Hin s Hs)) Hs) as [q Hq].
    rewrite Hnone in Hq. discriminate Hq.
  - intros e. case_decide; [discriminate |]. intros [= <-]. reflexivity.
  - intros tbl n. case_decide as F; [| discriminate]. intros _ s Hs.
    rewrite Forall_forall in F. exact (proj1 (Hrange s) (F s (Hin s Hs)) Hs).
Qed.

Lemma elem_of_map_1 {A B : Type} (f : A → B) (l : list A) (x : A) :
  x ∈ l → f x ∈ map f l.
Proof. intros H. apply list_elem_of_In, in_map, list_elem_of_In, H. Qed.

Lemma elem_of_map_inv {A B : Type} (f : A → B) (l : list A) (y : B) :
  y ∈ map f l → ∃ x, y = f x ∧ x ∈ l.
Proof.
  intros H. apply list_elem_of_In, in_map_iff in H as (x & <- & Hx).
  exists x. split; [reflexivity | apply list_elem_of_In, Hx].
Qed.

(** What [build_meteorite_detail] returns, when it returns: the view of
    each record, in the order of the input. *)
Lemma detail_of_view (m : meteorite) (r : detail_record) :
  detail_of m = Ok r → r = detail_view m.
Proof.
  unfold detail_of.
  destruct (year_of_date (date m)) as [y|] eqn:E; [| discriminate].
  apply year_of_date_prefix in E. subst y. simpl. intros [= <-].
  unfold detail_view, classified. f_equal.
  destruct (date m) as [[|c s]|]; reflexivity.
Qed.

Lemma detail_shape (ms : list meteorite) :
  ∀ recs, build_meteorite_detail ms = Ok recs → recs = map detail_view ms.
Proof.
  unfold build_meteorite_detail.
  induction ms as [|m ms IH]; intros recs; simpl.
  - intros [= <-]. reflexivity.
  - destruct (detail_of m) as [r|] eqn:E; [| discriminate]. simpl.
    destruct (map_each detail_of ms) as [rs|]; [| discriminate]. simpl.
    intros [= <-]. rewrite (detail_of_view _ _ E), (IH rs eq_refl).
    reflexivity.
Qed.

Lemma count_is_us_views (ms : list meteorite) :
  count_is_us (map detail_view ms)
  = Z.of_nat (length (filter (λ m, classified m = true) ms)).
Proof.
  unfold count_is_us. f_equal. induction ms as [|m ms IH]; [reflexivity |].
  cbn [map]. destruct (classified m) eqn:C.
  - rewrite !filter_cons_True by (simpl; exact C). simpl. by rewrite IH.
  - rewrite !filter_cons_False by (simpl; congruence). exact IH.
Qed.

Lemma us_state_views (ms : list meteorite) :
  length (filter (λ r, d_us_state r ≠ None) (map detail_view ms))
  = length (filter (λ m, classified m = true) ms).
Proof.
  induction ms as [|m ms IH]; [reflexivity |].
  cbn [map]. unfold classified at 1.
  destruct (assign_us_state (latitude m) (longitude m)) eqn:A.
  - rewrite filter_cons_True by (simpl; congruence).
    rewrite filter_cons_True by (unfold classified; rewrite A; reflexivity).
    simpl. by rewrite IH.
  - rewrite filter_cons_False by (simpl; congruence).
    rewrite filter_cons_False by (unfold classified; rewrite A; congruence).
    exact IH.
Qed.






End AggregatorShapes.

Section AggregatorTheorems.

Context {pyfloat : Type}.
Variable truediv : Z → Z → option pyfloat.
Variable round1 : pyfloat → pyfloat.



(** C9. The number of US meteorites the geographic aggregator returns is the
    number of detail records whose [is_us] is true, and the number of those
    whose [us_state] is not [None]. *)
Theorem us_count_agrees
    (ms : list meteorite) (us : list ufo_state_entry)
    (tbl : list (state_entry pyfloat)) (n : Z) (recs : list detail_record) :
  build_geographic_comparison truediv round1 ms us = Ok (tbl, n) →
  build_meteorite_detail ms = Ok recs →
  n = count_is_us recs
  ∧ n = Z.of_nat (length (filter (λ r, d_us_state r ≠ None) recs)).
Proof.
  intros Hgeo Hdet.
  destruct (geographic_returns truediv round1 ms us tbl n Hgeo)
    as (? & ? & _ & _ & _ & -> & _).
  rewrite (detail_shape ms recs Hdet). split.
  - symmetry. apply count_is_us_views.
  - rewrite us_state_views. reflexivity.
Qed.

(** [main] prints the same number twice. *)
Lemma main_us_counts (created : string) (ms : list meteorite)
    (uy : list ufo_year_entry) (us : list ufo_state_entry) (r : run pyfloat) :
  main truediv round1 created ms uy us = Ok r →
  run_us_meteorites r = run_us_count r.
Proof.
  unfold main.
  destruct (build_temporal_comparison ms uy) as [tl|]; [| discriminate].
  destruct (build_geographic_comparison truediv round1 ms us)
    as [[tbl n]|] eqn:G; [| discriminate].
  destruct (geographic_returns truediv round1 ms us tbl n G)
    as (? & ? & _ & _ & _ & -> & _).
  destruct (build_meteorite_detail ms) as [recs|] eqn:D; [| discriminate].
  cbn. intros [= <-]. cbn.
  rewrite (detail_shape ms recs D), count_is_us_views. reflexivity.
Qed.

(** C10. In the document [main] assembles, the three record counts of the
    metadata are the lengths of the three arrays of the same document. *)
Theorem record_counts_match (created : string) (ms : list meteorite)
    (uy : list ufo_year_entry) (us : list ufo_state_entry) (r : run pyfloat) :
  main truediv round1 created ms uy us = Ok r →
  let d := run_dataset r in
  let rc := md_record_counts (ds_metadata d) in
  rc_temporal_comparison rc = length (ds_temporal_comparison d)
  ∧ rc_state_comparison rc = length (ds_state_comparison d)
  ∧ rc_meteorite_detail rc = length (ds_meteorite_detail d).
Proof.
  unfold main.
  destruct (build_temporal_comparison ms uy) as [tl|]; [| discriminate].
  destruct (build_geographic_comparison truediv round1 ms us) as [geo|];
    [| discriminate].
  destruct (build_meteorite_detail ms) as [recs|]; [| discriminate].
  cbn. intros [= <-]. cbn. auto.
Qed.

End AggregatorTheorems.

(** ** The aggregators on the sample inputs *)

Section AggregatorExamples.

Example sample_state_table :
  build_geographic_comparison checked_div Round1 sample_meteorites sample_ufo_by_state
  = Ok ([ {| s_state := "CA"; s_meteorite_falls := 1; s_ufo_sightings := 4000;
             s_ufo_per_meteorite := Some (Round1 (TrueDiv 4000 1)) |};
          {| s_state := "NE"; s_meteorite_falls := 1; s_ufo_sightings := 0;
             s_ufo_per_meteorite := Some (Round1 (TrueDiv 0 1)) |};
          {| s_state := "TX"; s_meteorite_falls := 0; s_ufo_sightings := 20;
             s_ufo_per_meteorite := None |} ], 2).
Proof. vm_compute. reflexivity. Qed.

Example sample_details :
  ∃ recs,
    build_meteorite_detail sample_meteorites = Ok recs
    ∧ map d_year recs = [Some 1969; None; Some 1850; Some 1969; None]
    ∧ map d_date recs
      = [Some "1969-03-15"; None; Some "1850-06-01"; Some "1969-11-02"; None]
    ∧ map d_us_state recs = [Some "CA"; None; Some "NE"; None; None].
Proof. eexists. split; [vm_compute; reflexivity |]. repeat split. Qed.


(** A count beyond the floats: the quotient of the row raises
    [OverflowError] and no table is returned. *)
Example huge_count_overflows :
  build_geographic_comparison checked_div Round1 sample_meteorites
    [ {| us_state := Some "CA"; us_count := Some huge_count |} ]
  = Raise OverflowError.
Proof. vm_compute. reflexivity. Qed.


Lemma us_count_agrees_witness :
  ∃ tbl n recs,
    build_geographic_comparison checked_div Round1
      sample_meteorites sample_ufo_by_state = Ok (tbl, n)
    ∧ build_meteorite_detail sample_meteorites = Ok recs
    ∧ n = 2
    ∧ n = count_is_us recs
    ∧ n = Z.of_nat (length (filter (λ r, d_us_state r ≠ None) recs)).
Proof.
  eexists _, _, _.
  split; [vm_compute; reflexivity |].
  split; [vm_compute; reflexivity |].
  split; [reflexivity |].
  eapply (us_count_agrees checked_div Round1 sample_meteorites sample_ufo_by_state);
    vm_compute; reflexivity.
Defined.

Lemma record_counts_match_witness :
  ∃ r,
    main checked_div Round1 "2026-01-01"
      sample_meteorites sample_ufo_by_year sample_ufo_by_state = Ok r
    ∧ md_record_counts (ds_metadata (run_dataset r))
      = {| rc_temporal_comparison := 2; rc_state_comparison := 3;
           rc_meteorite_detail := 5 |}
    ∧ rc_temporal_comparison (md_record_counts (ds_metadata (run_dataset r)))
      = length (ds_temporal_comparison (run_dataset r))
    ∧ rc_state_comparison (md_record_counts (ds_metadata (run_dataset r)))
      = length (ds_state_comparison (run_dataset r))
    ∧ rc_meteorite_detail (md_record_counts (ds_metadata (run_dataset r)))
      = length (ds_meteorite_detail (run_dataset r)).
Proof.
  eexists. split; [vm_compute; reflexivity |].
  split; [reflexivity |].
  apply (record_counts_match checked_div Round1 "2026-01-01"
           sample_meteorites sample_ufo_by_year sample_ufo_by_state).
  vm_compute. reflexivity.
Defined.

(** C4. The detail builder does not return one record per input record for
    every input: on a date whose first four characters are superscript
    digits, [isdigit] lets the date through and [int] raises [ValueError],
    so the builder returns nothing. *)
Theorem superscript_date_raises :
  isdigit (prefix4 superscript_date) = true
  ∧ build_meteorite_detail [ fall (Some superscript_date) None None ]
    = Raise ValueError.
Proof. split; vm_compute; reflexivity. Qed.

(** When the detail builder returns, it returns one record per input record,
    in the order of the input: the view of each record, with the year of the
    date prefix whatever its range and the empty date turned into [None]. *)
Lemma detail_one_to_one (ms : list meteorite) (recs : list detail_record) :
  build_meteorite_detail ms = Ok recs →
  length recs = length ms
  ∧ ∀ i m, ms !! i = Some m → recs !! i = Some (detail_view m).
Proof.
  intros H. rewrite (detail_shape ms recs H). split.
  - apply length_map.
  - intros i m Hi. change (map detail_view ms) with (detail_view <$> ms).
    rewrite list_lookup_fmap, Hi. reflexivity.
Qed.

(** The detail builder returns when no date has a superscript digit among
    its first four characters. *)
Lemma build_meteorite_detail_returns (ms : list meteorite) :
  Forall (λ m, ∀ s, date m = Some s → date_guard (date m) = true →
               all_chars is_decimal (prefix4 s) = true) ms →
  ∃ recs, build_meteorite_detail ms = Ok recs.
Proof.
  unfold build_meteorite_detail.
  induction 1 as [|m ms Hm _ [recs IH]]; simpl; [eauto |].
  unfold detail_of at 1.
  destruct (year_of_date_returns (date m) Hm) as [r ->]. simpl.
  rewrite IH. simpl. eauto.
Qed.

End AggregatorExamples.

(** * Further properties *)

(** ** Outcomes of the date rule and of the two loops *)

Section Outcomes.

Lemma decimal_value_some (s : string) :
  ∀ acc v, decimal_value s acc = Some v → all_chars is_decimal s = true.
Proof.
  induction s as [|c s IH]; simpl; intros acc v H; [reflexivity |].
  destruct (is_decimal c); [| discriminate]. simpl. by eapply IH.
Qed.

(** The date rule raises exactly on a bad date, and otherwise gives the year
    of the date prefix. *)
Lemma year_of_date_outcome (m : meteorite) :
  year_of_date (date m)
  = if bad_date m then Raise ValueError else Ok (date_prefix_year m).
Proof.
  destruct (year_of_date (date m)) as [r|e] eqn:E.
  - rewrite (year_of_date_prefix m r E).
    unfold bad_date, year_of_date, int_of_digits in *.
    destruct (date m) as [s|]; [| reflexivity].
    destruct (date_guard (Some s)); [| reflexivity].
    destruct (decimal_value (prefix4 s) 0) as [v|] eqn:D; [| discriminate].
    rewrite (decimal_value_some _ _ _ D). reflexivity.
  - unfold bad_date, year_of_date, int_of_digits in *.
    destruct (date m) as [s|]; [| discriminate].
    destruct (date_guard (Some s)); [| discriminate].
    destruct (decimal_value (prefix4 s) 0) as [v|] eqn:D; [discriminate |].
    injection E as <-.
    destruct (all_chars is_decimal (prefix4 s)) eqn:A; [| reflexivity].
    destruct (decimal_value_total _ A 0) as [v Hv]. congruence.
Qed.

Lemma count_fall_raises (acc : gmap Z Z) (m : meteorite) :
  bad_date m = true → count_fall acc m = Raise ValueError.
Proof.
  intros H. unfold count_fall. rewrite year_of_date_outcome, H. reflexivity.
Qed.

Lemma count_fall_returns (acc : gmap Z Z) (m : meteorite) :
  bad_date m = false → ∃ acc', count_fall acc m = Ok acc'.
Proof.
  intros H. unfold count_fall. rewrite year_of_date_outcome, H. simpl.
  destruct (date_prefix_year m) as [y|];
    [destruct ((1900 <=? y) && (y <=? 2025)) |]; eauto.
Qed.

(** The first loop stops with [ValueError] at the first bad date. *)
Lemma count_fall_loop_outcome (ms : list meteorite) :
  ∀ acc : gmap Z Z,
    (Exists (λ m, bad_date m = true) ms →
     for_each count_fall ms acc = Raise ValueError)
    ∧ (Forall (λ m, bad_date m = false) ms →
       ∃ met, for_each count_fall ms acc = Ok met).
Proof.
  induction ms as [|m ms IH]; intros acc.
  - split; [intros H; inversion H | eauto].
  - cbn [for_each]. destruct (bad_date m) eqn:B.
    + rewrite (count_fall_raises acc m B). split; [reflexivity |].
      intros H. apply Forall_cons in H as [H _]. congruence.
    + destruct (count_fall_returns acc m B) as [acc' ->]. simpl.
      destruct (IH acc') as [IH1 IH2]. split.
      * intros H. apply Exists_cons in H as [H | H]; [congruence | auto].
      * intros H. apply Forall_cons in H as [_ H]. auto.
Qed.

Lemma record_ufo_year_outcome (acc : gmap Z Z) (e : ufo_year_entry) :
  (string_year e = true → record_ufo_year acc e = Raise TypeError)
  ∧ (string_year e = false → ∃ acc', record_ufo_year acc e = Ok acc')
  ∧ (year_skipped e = true → record_ufo_year acc e = Ok acc).
Proof.
  unfold string_year, year_skipped, record_ufo_year.
  destruct (uy_year e) as [|y|s].
  - split; [discriminate | split; eauto].
  - split; [discriminate |]. split.
    + destruct (negb (y =? 0) && (1900 <=? y) && (y <=? 2025)); eauto.
    + intros H. apply negb_true_iff in H.
      rewrite <- andb_assoc, H, andb_false_r. reflexivity.
  - destruct (String.eqb s ""); simpl.
    + split; [discriminate | split; eauto].
    + split; [reflexivity | split; discriminate].
Qed.

(** The second loop stops with [TypeError] at the first non-empty string
    year. *)
Lemma record_ufo_year_loop_outcome (us : list ufo_year_entry) :
  ∀ acc : gmap Z Z,
    (Exists (λ e, string_year e = true) us →
     for_each record_ufo_year us acc = Raise TypeError)
    ∧ (Forall (λ e, string_year e = false) us →
       ∃ ufo, for_each record_ufo_year us acc = Ok ufo).
Proof.
  induction us as [|e us IH]; intros acc.
  - split; [intros H; inversion H | eauto].
  - cbn [for_each].
    destruct (record_ufo_year_outcome acc e) as (H1 & H2 & _).
    destruct (string_year e) eqn:B.
    + rewrite (H1 eq_refl). split; [reflexivity |].
      intros H. apply Forall_cons in H as [H _]. congruence.
    + destruct (H2 eq_refl) as [acc' ->]. simpl.
      destruct (IH acc') as [IH1 IH2]. split.
      * intros H. apply Exists_cons in H as [H | H]; [congruence | auto].
      * intros H. apply Forall_cons in H as [_ H]. auto.
Qed.

(** Entries the second loop passes over can be dropped beforehand. *)
Lemma record_ufo_year_loop_skip (us : list ufo_year_entry) :
  ∀ acc : gmap Z Z,
    for_each record_ufo_year (filter (λ e, year_skipped e = false) us) acc
    = for_each record_ufo_year us acc.
Proof.
  induction us as [|e us IH]; intros acc; [reflexivity |].
  destruct (year_skipped e) eqn:S.
  - rewrite filter_cons_False by congruence. cbn [for_each].
    destruct (record_ufo_year_outcome acc e) as (_ & _ & H).
    rewrite (H S). simpl. apply IH.
  - rewrite filter_cons_True by exact S. cbn [for_each].
    destruct (record_ufo_year acc e); simpl; [apply IH | reflexivity].
Qed.

End Outcomes.

Section TemporalExtras.

(** X1. [build_temporal_comparison] raises [ValueError] exactly when some
    meteorite has a bad date, whatever the UFO entries are; with no bad date
    it raises [TypeError] exactly when some UFO entry has a non-empty string
    as its year; and otherwise it returns a timeline. *)
Theorem temporal_outcome (ms : list meteorite) (us : list ufo_year_entry) :
  (Exists (λ m, bad_date m = true) ms →
   build_temporal_comparison ms us = Raise ValueError)
  ∧ (Forall (λ m, bad_date m = false) ms →
     Exists (λ e, string_year e = true) us →
     build_temporal_comparison ms us = Raise TypeError)
  ∧ (Forall (λ m, bad_date m = false) ms →
     Forall (λ e, string_year e = false) us →
     ∃ tl, build_temporal_comparison ms us = Ok tl).
Proof.
  unfold build_temporal_comparison.
  destruct (count_fall_loop_outcome ms ∅) as [M1 M2].
  destruct (record_ufo_year_loop_outcome us ∅) as [U1 U2].
  split; [| split].
  - intros H. rewrite (M1 H). reflexivity.
  - intros Hm Hu. destruct (M2 Hm) as [met ->]. simpl.
    rewrite (U1 Hu). reflexivity.
  - intros Hm Hu. destruct (M2 Hm) as [met ->], (U2 Hu) as [ufo ->].
    simpl. eauto.
Qed.

(** X2. UFO entries with no year, with an integer year outside 1900..2025
    (0 included) or with the empty string as year are passed over: the
    aggregator gives the same result, exceptions included, when they are
    removed from the source. *)
Theorem skipped_year_entries (ms : list meteorite) (us : list ufo_year_entry) :
  build_temporal_comparison ms (filter (λ e, year_skipped e = false) us)
  = build_temporal_comparison ms us.
Proof.
  unfold build_temporal_comparison.
  rewrite record_ufo_year_loop_skip. reflexivity.
Qed.

Lemma count_falls_perm (ms ms' : list meteorite) (y : Z) :
  ms ≡ₚ ms' → count_falls ms y = count_falls ms' y.
Proof. intros H. unfold count_falls. by rewrite H. Qed.

Lemma bad_date_perm (ms ms' : list meteorite) :
  ms ≡ₚ ms' →
  Exists (λ m, bad_date m = true) ms → Exists (λ m, bad_date m = true) ms'.
Proof. intros H. by rewrite H. Qed.

(** X3. The order of the meteorite records does not matter to the timeline:
    two lists with the same records in another order give the same result,
    exceptions included. *)
Theorem temporal_permutation
    (ms ms' : list meteorite) (us : list ufo_year_entry) :
  ms ≡ₚ ms' →
  build_temporal_comparison ms us = build_temporal_comparison ms' us.
Proof.
  intros Hp.
  destruct (decide (Exists (λ m, bad_date m = true) ms)) as [Hbad | Hok].
  - unfold build_temporal_comparison.
    rewrite (proj1 (count_fall_loop_outcome ms ∅) Hbad).
    rewrite (proj1 (count_fall_loop_outcome ms' ∅) (bad_date_perm _ _ Hp Hbad)).
    reflexivity.
  - assert (Forall (λ m, bad_date m = false) ms) as Hms.
    { apply Forall_forall. intros m Hm. destruct (bad_date m) eqn:B; [| done].
      exfalso. apply Hok, Exists_exists. eauto. }
    assert (Forall (λ m, bad_date m = false) ms') as Hms' by (by rewrite <- Hp).
    unfold build_temporal_comparison.
    destruct (proj2 (count_fall_loop_outcome ms ∅) Hms) as [met E].
    destruct (proj2 (count_fall_loop_outcome ms' ∅) Hms') as [met' E'].
    rewrite E, E'. assert (met = met') as ->; [| reflexivity].
    apply map_eq. intros y.
    rewrite (count_fall_loop _ _ _ E y), (count_fall_loop _ _ _ E' y).
    rewrite (count_falls_perm ms ms' y Hp). reflexivity.
Qed.

End TemporalExtras.

(** ** Counting by key *)

Section Tally.

Context {A K : Type} `{EqDecision K}.
Variable key : A → option K.

Local Abbreviation tally xs k :=
  (Z.of_nat (length (filter (λ x, key x = Some k) xs))).

Lemma Zsum_map_add {B : Type} (f g : B → Z) (l : list B) :
  Zsum (map (λ b, f b + g b) l) = Zsum (map f l) + Zsum (map g l).
Proof.
  induction l as [|b l IH]; [reflexivity |].
  unfold Zsum in *. cbn [map foldr]. rewrite IH. lia.
Qed.

Lemma Zsum_map_ext {B : Type} (f g : B → Z) (l : list B) :
  (∀ b, b ∈ l → f b = g b) → Zsum (map f l) = Zsum (map g l).
Proof.
  induction l as [|b l IH]; intros H; [reflexivity |].
  unfold Zsum in *. cbn [map foldr].
  rewrite (H b) by left. rewrite IH; [reflexivity |].
  intros b' Hb'. apply H. by right.
Qed.

Lemma Zsum_map_zero {B : Type} (l : list B) : Zsum (map (λ _, 0) l) = 0.
Proof.
  induction l as [|b l IH]; [reflexivity |].
  unfold Zsum in *. cbn [map foldr]. rewrite IH. reflexivity.
Qed.

(** Over keys without repetition, one key at most matches. *)
Lemma Zsum_indicator (o : option K) (ks : list K) :
  NoDup ks →
  Zsum (map (λ k, if decide (o = Some k) then 1 else 0) ks)
  = match o with
    | Some k => if decide (k ∈ ks) then 1 else 0
    | None => 0
    end.
Proof.
  induction 1 as [|k ks Hk Hnd IH].
  - destruct o as [k|]; [| reflexivity].
    rewrite decide_False by (intros H; inversion H). reflexivity.
  - unfold Zsum in *. cbn [map foldr]. rewrite IH.
    destruct o as [k'|]; [| rewrite decide_False by discriminate; reflexivity].
    destruct (decide (Some k' = Some k)) as [[= ->] | Hne].
    + rewrite (decide_False (P := k ∈ ks)) by exact Hk.
      rewrite decide_True by left. reflexivity.
    + destruct (decide (k' ∈ ks)) as [Hin | Hout].
      * rewrite decide_True by (by right). reflexivity.
      * rewrite decide_False; [reflexivity |].
        intros Hc. apply elem_of_cons in Hc as [-> | Hc]; [by apply Hne | done].
Qed.

(** The counts of the keys of a list without repetition add up to the number
    of items with a key, when the list has every key that occurs. *)
Lemma tally_total (ks : list K) (xs : list A) :
  NoDup ks →
  (∀ x k, x ∈ xs → key x = Some k → k ∈ ks) →
  Zsum (map (λ k, tally xs k) ks)
  = Z.of_nat (length (filter (λ x, is_Some (key x)) xs)).
Proof.
  intros Hnd. induction xs as [|x xs IH]; intros Hall.
  - simpl. apply Zsum_map_zero.
  - rewrite (Zsum_map_ext _
      (λ k, (if decide (key x = Some k) then 1 else 0) + tally xs k)).
    2:{ intros k _. case_decide as D.
        - rewrite filter_cons_True by exact D. simpl length. lia.
        - rewrite filter_cons_False by exact D. lia. }
    rewrite Zsum_map_add, Zsum_indicator by exact Hnd.
    rewrite IH by (intros x' k Hx'; apply Hall; by right).
    destruct (key x) as [k|] eqn:E.
    + rewrite decide_True by (apply (Hall x k); [left | exact E]).
      rewrite filter_cons_True by (rewrite E; eauto). simpl length. lia.
    + rewrite filter_cons_False by (rewrite E; intros [? ?]; discriminate).
      lia.
Qed.

End Tally.

(** ** The timeline, year by year *)

Section TimelineRows.

Lemma falls_in_fall_year (y : Z) (m : meteorite) :
  falls_in y m = true ↔ fall_year m = Some y.
Proof.
  unfold falls_in, fall_year. destruct (date_prefix_year m) as [v|];
    [| split; discriminate].
  split.
  - rewrite !andb_true_iff. intros [[Hv H1] H2].
    assert (v = y) as -> by lia. rewrite H1, H2. reflexivity.
  - destruct ((1900 <=? v) && (v <=? 2025)) eqn:R; [| discriminate].
    intros [= ->]. rewrite Z.eqb_refl. exact R.
Qed.

Lemma count_falls_tally (ms : list meteorite) (y : Z) :
  count_falls ms y
  = Z.of_nat (length (filter (λ m, fall_year m = Some y) ms)).
Proof.
  unfold count_falls. f_equal. f_equal.
  apply list_filter_iff. intros m. apply falls_in_fall_year.
Qed.

(** The timeline is the list of its years, strictly ascending and within
    1900..2025, each with its two counts; every year of a fall is there. *)
Lemma temporal_rows
    (ms : list meteorite) (us : list ufo_year_entry) (tl : list timeline_entry) :
  build_temporal_comparison ms us = Ok tl →
  ∃ years : list Z,
    StronglySorted Z.lt years
    ∧ (∀ y, y ∈ years → 1900 ≤ y ≤ 2025)
    ∧ (∀ m y, m ∈ ms → fall_year m = Some y → y ∈ years)
    ∧ tl = map (λ y, {| t_year := y;
                        t_meteorite_falls := count_falls ms y;
                        t_ufo_sightings := default 0 (ufo_recorded us y) |})
             years.
Proof.
  intros Hrun.
  destruct (temporal_shape ms us tl Hrun) as (met & ufo & Hmet & Hufo & ->).
  destruct (sorted_set_spec (dom met ∪ dom ufo)) as [Hsorted Hmem].
  exists (merge_sort Z.le (elements (dom met ∪ dom ufo))).
  split; [exact Hsorted |]. split; [| split].
  - intros y Hy. apply Hmem, elem_of_union in Hy as [Hy | Hy];
      apply elem_of_dom in Hy.
    + rewrite Hmet in Hy. case_decide as D; [destruct Hy; discriminate |].
      pose proof (count_falls_nonneg ms y).
      destruct (proj1 (count_falls_pos ms y)) as (m & _ & F); [lia |].
      by eapply falls_in_range.
    + rewrite Hufo in Hy. apply ufo_recorded_some in Hy as (e & _ & He).
      by eapply ufo_entry_year_range.
  - intros m y Hm Hy. apply Hmem, elem_of_union. left. apply elem_of_dom.
    rewrite Hmet. apply falls_in_fall_year in Hy.
    assert (0 < count_falls ms y) by (apply count_falls_pos; eauto).
    rewrite decide_False by lia. eauto.
  - apply map_ext_in. intros y _. unfold timeline_of. rewrite Hmet, Hufo.
    f_equal. case_decide; simpl; congruence.
Qed.

Lemma StronglySorted_lt_NoDup (l : list Z) : StronglySorted Z.lt l → NoDup l.
Proof.
  induction 1 as [|a l Hl IH Ha]; constructor; [| exact IH].
  intros Hin. rewrite Forall_forall in Ha. specialize (Ha a Hin). lia.
Qed.

Lemma sorted_range_length (b : Z) (l : list Z) :
  StronglySorted Z.lt l →
  ∀ a, (∀ y, y ∈ l → a ≤ y ≤ b) → Z.of_nat (length l) ≤ Z.max 0 (b - a + 1).
Proof.
  induction 1 as [|x l Hl IH Hx]; intros a Hr; [simpl; lia |].
  assert (a ≤ x ≤ b) by (apply Hr; left).
  specialize (IH (x + 1)). rewrite Forall_forall in Hx.
  assert (Z.of_nat (length l) ≤ Z.max 0 (b - (x + 1) + 1)) as Hlen.
  { apply IH. intros y Hy. specialize (Hx y Hy).
    assert (a ≤ y ≤ b) by (apply Hr; by right). lia. }
  simpl length. lia.
Qed.

(** X4. A timeline has at most 126 entries, one per year of 1900..2025 at
    most. *)
Theorem timeline_length_bound
    (ms : list meteorite) (us : list ufo_year_entry) (tl : list timeline_entry) :
  build_temporal_comparison ms us = Ok tl → (length tl ≤ 126)%nat.
Proof.
  intros Hrun.
  destruct (temporal_rows ms us tl Hrun) as (years & Hs & Hr & _ & ->).
  rewrite length_map.
  pose proof (sorted_range_length 2025 years Hs 1900 Hr). lia.
Qed.

(** X5. The meteorite counts of a timeline add up to the number of records
    whose date gives a year of 1900..2025: every such record is counted once
    and no other record is counted. *)
Theorem timeline_falls_total
    (ms : list meteorite) (us : list ufo_year_entry) (tl : list timeline_entry) :
  build_temporal_comparison ms us = Ok tl →
  Zsum (map t_meteorite_falls tl)
  = Z.of_nat (length (filter (λ m, is_Some (fall_year m)) ms)).
Proof.
  intros Hrun.
  destruct (temporal_rows ms us tl Hrun) as (years & Hs & _ & Hall & ->).
  rewrite map_map. cbn [t_meteorite_falls].
  rewrite (Zsum_map_ext _
    (λ y, Z.of_nat (length (filter (λ m, fall_year m = Some y) ms))))
    by (intros y _; apply count_falls_tally).
  apply (tally_total fall_year); [by apply StronglySorted_lt_NoDup | exact Hall].
Qed.

Lemma length_filter_map {B C : Type} (f : B → C) (P : C → Prop)
    `{∀ c, Decision (P c)} (l : list B) :
  length (filter P (map f l)) = length (filter (λ b, P (f b)) l).
Proof.
  induction l as [|b l IH]; [reflexivity |]. cbn [map].
  destruct (decide (P (f b))) as [D | D].
  - rewrite !filter_cons_True by exact D. simpl. by rewrite IH.
  - rewrite !filter_cons_False by exact D. exact IH.
Qed.

(** X6. The timeline and the detail records agree: the meteorite count of a
    timeline entry is the number of detail records whose [year] is the year
    of the entry. *)
Theorem timeline_matches_detail
    (ms : list meteorite) (us : list ufo_year_entry)
    (tl : list timeline_entry) (recs : list detail_record) :
  build_temporal_comparison ms us = Ok tl →
  build_meteorite_detail ms = Ok recs →
  Forall (λ t, t_meteorite_falls t
               = Z.of_nat (length
                   (filter (λ r, d_year r = Some (t_year t)) recs))) tl.
Proof.
  intros Hrun Hdet.
  destruct (temporal_rows ms us tl Hrun) as (years & _ & Hr & _ & ->).
  rewrite (detail_shape ms recs Hdet).
  apply Forall_map, Forall_forall. intros y Hy. cbn.
  rewrite length_filter_map. unfold count_falls. f_equal. f_equal.
  apply list_filter_iff. intros m. cbn [detail_view d_year].
  specialize (Hr y Hy). unfold falls_in.
  destruct (date_prefix_year m) as [v|]; [| split; discriminate].
  rewrite !andb_true_iff. split.
  - intros [[Hv _] _]. f_equal. lia.
  - intros [= ->]. lia.
Qed.

End TimelineRows.

Section TemporalExtraExamples.

Lemma temporal_permutation_witness :
  sample_meteorites ≡ₚ rev sample_meteorites
  ∧ build_temporal_comparison sample_meteorites sample_ufo_by_year
    = build_temporal_comparison (rev sample_meteorites) sample_ufo_by_year.
Proof.
  split; [apply Permutation_rev |].
  apply (temporal_permutation sample_meteorites (rev sample_meteorites)).
  apply Permutation_rev.
Defined.

Lemma timeline_length_bound_witness :
  ∃ tl,
    build_temporal_comparison sample_meteorites sample_ufo_by_year = Ok tl
    ∧ (length tl ≤ 126)%nat.
Proof.
  eexists. split; [vm_compute; reflexivity |].
  apply (timeline_length_bound sample_meteorites sample_ufo_by_year).
  vm_compute. reflexivity.
Defined.

Lemma timeline_falls_total_witness :
  ∃ tl,
    build_temporal_comparison sample_meteorites sample_ufo_by_year = Ok tl
    ∧ Zsum (map t_meteorite_falls tl) = 2
    ∧ Zsum (map t_meteorite_falls tl)
      = Z.of_nat (length (filter (λ m, is_Some (fall_year m)) sample_meteorites)).
Proof.
  eexists. split; [vm_compute; reflexivity |].
  split; [reflexivity |].
  apply (timeline_falls_total sample_meteorites sample_ufo_by_year).
  vm_compute. reflexivity.
Defined.

Lemma timeline_matches_detail_witness :
  ∃ tl recs,
    build_temporal_comparison sample_meteorites sample_ufo_by_year = Ok tl
    ∧ build_meteorite_detail sample_meteorites = Ok recs
    ∧ Forall (λ t, t_meteorite_falls t
                   = Z.of_nat (length
                       (filter (λ r, d_year r = Some (t_year t)) recs))) tl.
Proof.
  eexists _, _.
  split; [vm_compute; reflexivity |].
  split; [vm_compute; reflexivity |].
  apply (timeline_matches_detail sample_meteorites sample_ufo_by_year);
    vm_compute; reflexivity.
Defined.

End TemporalExtraExamples.

(** ** The order of the state codes *)

Section StringOrder.

Lemma ascii_compare_N (a b : ascii) :
  Ascii.compare a b = N.compare (N_of_ascii a) (N_of_ascii b).
Proof. reflexivity. Qed.

Lemma ascii_compare_eq (a b : ascii) : Ascii.compare a b = Eq → a = b.
Proof.
  rewrite ascii_compare_N. intros H. apply N.compare_eq in H.
  rewrite <- (ascii_N_embedding a), <- (ascii_N_embedding b). by rewrite H.
Qed.

Lemma ascii_compare_refl (a : ascii) : Ascii.compare a a = Eq.
Proof. rewrite ascii_compare_N. apply N.compare_refl. Qed.

Lemma ascii_compare_lt_trans (a b c : ascii) :
  Ascii.compare a b = Lt → Ascii.compare b c = Lt → Ascii.compare a c = Lt.
Proof.
  rewrite !ascii_compare_N, !N.compare_lt_iff. lia.
Qed.

Lemma ascii_compare_lt_gt (a b : ascii) :
  Ascii.compare a b = Lt → Ascii.compare b a = Gt.
Proof.
  rewrite !ascii_compare_N, N.compare_lt_iff, N.compare_gt_iff. lia.
Qed.

Lemma ascii_compare_gt_lt (a b : ascii) :
  Ascii.compare a b = Gt → Ascii.compare b a = Lt.
Proof.
  rewrite !ascii_compare_N, N.compare_lt_iff, N.compare_gt_iff. lia.
Qed.

Lemma string_compare_cons (a b : ascii) (s t : string) :
  String.compare (String a s) (String b t)
  = match Ascii.compare a b with
    | Eq => String.compare s t
    | Lt => Lt
    | Gt => Gt
    end.
Proof. simpl. destruct (Ascii.compare a b); reflexivity. Qed.

Lemma str_le_compare (a b : string) : str_le a b ↔ String.compare a b ≠ Gt.
Proof.
  unfold str_le, String.leb. destruct (String.compare a b); split;
    intros H; congruence.
Qed.

(** No [Gt] after two steps that are not [Gt]. *)
Lemma string_compare_trans (a : string) :
  ∀ b c, String.compare a b ≠ Gt → String.compare b c ≠ Gt →
         String.compare a c ≠ Gt.
Proof.
  induction a as [|x a IH]; intros [|y b] [|z c];
    try (simpl; congruence).
  rewrite !string_compare_cons.
  destruct (Ascii.compare x y) eqn:E1; [| | congruence].
  - apply ascii_compare_eq in E1 as ->.
    destruct (Ascii.compare y z) eqn:E2; [apply IH | congruence | congruence].
  - destruct (Ascii.compare y z) eqn:E2; [| | congruence].
    + apply ascii_compare_eq in E2 as <-. rewrite E1. congruence.
    + rewrite (ascii_compare_lt_trans _ _ _ E1 E2). congruence.
Qed.

Lemma string_compare_antisym (a : string) :
  ∀ b, String.compare a b ≠ Gt → String.compare b a ≠ Gt → a = b.
Proof.
  induction a as [|x a IH]; intros [|y b]; try (simpl; congruence).
  rewrite !string_compare_cons.
  destruct (Ascii.compare x y) eqn:E1; [| | congruence].
  - apply ascii_compare_eq in E1 as ->. rewrite ascii_compare_refl.
    intros H1 H2. f_equal. by apply IH.
  - rewrite (ascii_compare_lt_gt _ _ E1). congruence.
Qed.

Lemma string_compare_total (a : string) :
  ∀ b, String.compare a b ≠ Gt ∨ String.compare b a ≠ Gt.
Proof.
  induction a as [|x a IH]; intros [|y b];
    try (simpl; first [left; congruence | right; congruence]).
  rewrite !string_compare_cons.
  destruct (Ascii.compare x y) eqn:E1.
  - apply ascii_compare_eq in E1 as ->. rewrite ascii_compare_refl. apply IH.
  - left. congruence.
  - right. rewrite (ascii_compare_gt_lt _ _ E1). congruence.
Qed.

Lemma str_le_trans : Transitive str_le.
Proof.
  intros a b c. rewrite !str_le_compare. apply string_compare_trans.
Qed.

Lemma str_le_total : Total str_le.
Proof.
  intros a b. rewrite !str_le_compare. apply string_compare_total.
Qed.

Lemma str_le_antisym (a b : string) : str_le a b → str_le b a → a = b.
Proof. rewrite !str_le_compare. apply string_compare_antisym. Qed.

(** The sorted list of a set of strings is strictly ascending. *)
Lemma sorted_states_strict (S : gset string) :
  StronglySorted (λ a b, str_le a b ∧ a ≠ b) (merge_sort str_le (elements S)).
Proof.
  pose proof str_le_total as Htotal. pose proof str_le_trans as Htrans.
  assert (StronglySorted str_le (merge_sort str_le (elements S))) as Hs
    by apply (StronglySorted_merge_sort str_le).
  assert (NoDup (merge_sort str_le (elements S))) as Hn
    by (rewrite merge_sort_Permutation; apply NoDup_elements).
  induction Hs as [|a l Hl IH Ha]; constructor.
  - apply IH. by apply NoDup_cons in Hn as [_ ?].
  - apply NoDup_cons in Hn as [Hnot _].
    rewrite Forall_forall in *. intros x Hx. split; [by apply Ha |].
    intros ->. by apply Hnot.
Qed.

End StringOrder.

(** ** The state table, state by state *)

Section GeographicRows.

Context {pyfloat : Type}.
Variable truediv : Z → Z → option pyfloat.
Variable round1 : pyfloat → pyfloat.

Lemma state_falls_tally (ms : list meteorite) (s : string) :
  state_falls ms s
  = Z.of_nat (length
      (filter (λ m, assign_us_state (latitude m) (longitude m) = Some s) ms)).
Proof. reflexivity. Qed.

Lemma state_falls_perm (ms ms' : list meteorite) (s : string) :
  ms ≡ₚ ms' → state_falls ms s = state_falls ms' s.
Proof. intros H. unfold state_falls. rewrite H. reflexivity. Qed.

Lemma classified_perm (ms ms' : list meteorite) :
  ms ≡ₚ ms' →
  length (filter (λ m, classified m = true) ms)
  = length (filter (λ m, classified m = true) ms').
Proof. intros H. rewrite H. reflexivity. Qed.

Lemma classified_is_Some (m : meteorite) :
  classified m = true ↔ is_Some (assign_us_state (latitude m) (longitude m)).
Proof.
  unfold classified.
  destruct (assign_us_state (latitude m) (longitude m)) as [s|]; split.
  - intros _. exists s. reflexivity.
  - reflexivity.
  - discriminate.
  - intros [s H]. discriminate H.
Qed.

(** A returned table is the list of its states, strictly ascending, each
    with its counts and its ratio; a state is there when a meteorite is
    classified under it or a two-character entry names it. *)
Lemma geographic_rows (ms : list meteorite) (us : list ufo_state_entry)
    (tbl : list (state_entry pyfloat)) (n : Z) :
  build_geographic_comparison truediv round1 ms us = Ok (tbl, n) →
  ∃ states : list string,
    StronglySorted (λ a b, str_le a b ∧ a ≠ b) states
    ∧ (∀ s, s ∈ states ↔
            0 < state_falls ms s ∨ is_Some (ufo_state_recorded us s))
    ∧ (∀ s, 0 < state_falls ms s →
            is_Some (truediv (default 0 (ufo_state_recorded us s))
                             (state_falls ms s)))
    ∧ tbl = map (λ s,
                   {| s_state := s;
                      s_meteorite_falls := state_falls ms s;
                      s_ufo_sightings := default 0 (ufo_state_recorded us s);
                      s_ufo_per_meteorite :=
                        if 0 <? state_falls ms s
                        then round1
                               <$> truediv
                                     (default 0 (ufo_state_recorded us s))
                                     (state_falls ms s)
                        else None |}) states
    ∧ n = Z.of_nat (length (filter (λ m, classified m = true) ms)).
Proof.
  intros Hrun.
  pose proof (proj2 (proj2 (proj2 (geographic_outcome truediv round1 ms us)))
                tbl n Hrun) as Hrange.
  destruct (geographic_returns truediv round1 ms us tbl n Hrun)
    as (met & ufo & Hmet & Hufo & -> & -> & _).
  exists (merge_sort str_le (elements (dom met ∪ dom ufo))).
  split; [apply sorted_states_strict |]. split; [| split; [exact Hrange |]].
  - intros s. rewrite elem_of_sorted_states, elem_of_union, !elem_of_dom.
    rewrite Hmet, Hufo. pose proof (state_falls_nonneg ms s) as Hn.
    case_decide as D.
    + split; (intros [H | H]; [| right; exact H]).
      * destruct H as [? H]. discriminate H.
      * exfalso. lia.
    + split; (intros [H | H]; [left | right; exact H]).
      * lia.
      * eexists. reflexivity.
  - split; [| reflexivity]. apply map_ext_in. intros s _.
    unfold row_of. rewrite (met_lookup_falls ms met Hmet s), Hufo.
    reflexivity.
Qed.

Lemma strict_states_NoDup (l : list string) :
  StronglySorted (λ a b, str_le a b ∧ a ≠ b) l → NoDup l.
Proof.
  induction 1 as [|a l Hl IH Ha]; constructor; [| exact IH].
  intros Hin. rewrite Forall_forall in Ha.
  destruct (Ha a Hin) as [_ Hne]. apply Hne. reflexivity.
Qed.

End GeographicRows.

Section GeographicExtras.

Context {pyfloat : Type}.
Variable truediv : Z → Z → option pyfloat.
Variable round1 : pyfloat → pyfloat.


(** X8. The meteorite counts of a returned state table add up to the US
    total returned with it, and this total is the number of classified
    records, at most the number of records. *)
Theorem state_falls_total (ms : list meteorite) (us : list ufo_state_entry)
    (tbl : list (state_entry pyfloat)) (n : Z) :
  build_geographic_comparison truediv round1 ms us = Ok (tbl, n) →
  Zsum (map s_meteorite_falls tbl) = n
  ∧ n = Z.of_nat (length (filter (λ m, classified m = true) ms))
  ∧ 0 ≤ n ≤ Z.of_nat (length ms).
Proof.
  intros Hrun.
  destruct (geographic_rows truediv round1 ms us tbl n Hrun)
    as (states & Hsorted & Hmem & _ & -> & ->).
  split; [| split; [reflexivity |]].
  - rewrite map_map. cbn [s_meteorite_falls]. unfold state_falls.
    rewrite (tally_total
               (λ m, assign_us_state (latitude m) (longitude m)) states ms).
    + f_equal. f_equal. apply list_filter_iff. intros m.
      symmetry. apply classified_is_Some.
    + apply strict_states_NoDup, Hsorted.
    + intros m s Hm Hs. apply Hmem. left. apply state_falls_pos.
      exists m. split; [exact Hm | exact Hs].
  - pose proof (length_filter (λ m, classified m = true) ms). lia.
Qed.

(** X9. The order of the meteorite records does not matter to the state
    table nor to the US total. *)
Theorem geographic_permutation
    (ms ms' : list meteorite) (us : list ufo_state_entry) :
  ms ≡ₚ ms' →
  build_geographic_comparison truediv round1 ms us
  = build_geographic_comparison truediv round1 ms' us.
Proof.
  intros Hp.
  destruct (geographic_shape truediv round1 ms us)
    as (met & ufo & Hmet & Hufo & ->).
  destruct (geographic_shape truediv round1 ms' us)
    as (met' & ufo' & Hmet' & Hufo' & ->).
  assert (met = met') as ->.
  { apply map_eq. intros s.
    rewrite Hmet, Hmet', (state_falls_perm ms ms' s Hp). reflexivity. }
  assert (ufo = ufo') as ->.
  { apply map_eq. intros s. rewrite Hufo, Hufo'. reflexivity. }
  rewrite (classified_perm ms ms' Hp). reflexivity.
Qed.

(** X10. Meteorites are only ever counted under the 48 codes of the centroid
    table: a row for any other state (Alaska, Hawaii, a territory, or any
    two-character string the UFO source has) has no meteorite and no
    ratio. *)
Theorem meteorite_rows_are_codes
    (ms : list meteorite) (us : list ufo_state_entry)
    (tbl : list (state_entry pyfloat)) (n : Z) (r : state_entry pyfloat) :
  build_geographic_comparison truediv round1 ms us = Ok (tbl, n) →
  r ∈ tbl →
  (0 < s_meteorite_falls r → s_state r ∈ codes)
  ∧ (s_state r ∉ codes →
     s_meteorite_falls r = 0 ∧ s_ufo_per_meteorite r = None).
Proof.
  intros Hrun Hr.
  destruct (geographic_rows truediv round1 ms us tbl n Hrun)
    as (states & _ & _ & _ & -> & _).
  apply elem_of_map_inv in Hr as (s & -> & _).
  cbn [s_state s_meteorite_falls s_ufo_per_meteorite].
  assert (0 < state_falls ms s → s ∈ codes) as Hcode.
  { intros Hpos. apply state_falls_pos in Hpos as (m & _ & Hm).
    exact (assign_some_in_codes _ _ _ Hm). }
  split; [exact Hcode |].
  intros Hout. pose proof (state_falls_nonneg ms s) as Hn.
  assert (state_falls ms s = 0) as ->
    by (destruct (decide (state_falls ms s = 0));
        [assumption | exfalso; apply Hout, Hcode; lia]).
  split; reflexivity.
Qed.

End GeographicExtras.

Section GeographicExtraExamples.


Lemma state_falls_total_witness :
  ∃ tbl n,
    build_geographic_comparison checked_div Round1
      sample_meteorites sample_ufo_by_state = Ok (tbl, n)
    ∧ n = 2
    ∧ Zsum (map s_meteorite_falls tbl) = n
    ∧ n = Z.of_nat (length (filter (λ m, classified m = true)
                              sample_meteorites))
    ∧ 0 ≤ n ≤ Z.of_nat (length sample_meteorites).
Proof.
  eexists _, _. split; [vm_compute; reflexivity |].
  split; [reflexivity |].
  apply (state_falls_total checked_div Round1
           sample_meteorites sample_ufo_by_state).
  vm_compute. reflexivity.
Defined.

Lemma geographic_permutation_witness :
  sample_meteorites ≡ₚ rev sample_meteorites
  ∧ build_geographic_comparison checked_div Round1
      sample_meteorites sample_ufo_by_state
    = build_geographic_comparison checked_div Round1
        (rev sample_meteorites) sample_ufo_by_state.
Proof.
  split; [apply Permutation_rev |].
  apply (geographic_permutation checked_div Round1
           sample_meteorites (rev sample_meteorites)).
  apply Permutation_rev.
Defined.

Lemma meteorite_rows_are_codes_witness :
  ∃ tbl n r,
    build_geographic_comparison checked_div Round1 sample_meteorites
      [ {| us_state := Some "AK"; us_count := Some 7 |} ] = Ok (tbl, n)
    ∧ r ∈ tbl
    ∧ s_state r = "AK"
    ∧ s_ufo_sightings r = 7
    ∧ (0 < s_meteorite_falls r → s_state r ∈ codes)
    ∧ (s_state r ∉ codes →
       s_meteorite_falls r = 0 ∧ s_ufo_per_meteorite r = None).
Proof.
  eexists _, _, _.
  split; [vm_compute; reflexivity |].
  split; [apply list_elem_of_here |].
  split; [reflexivity |]. split; [reflexivity |].
  eapply (meteorite_rows_are_codes checked_div Round1 sample_meteorites
            [ {| us_state := Some "AK"; us_count := Some 7 |} ]).
  - vm_compute. reflexivity.
  - apply list_elem_of_here.
Defined.

End GeographicExtraExamples.

(** ** The detail records *)

Section DetailFacts.



Lemma is_decimal_digit_value (c : ascii) :
  is_decimal c = true → 0 ≤ digit_value c ≤ 9.
Proof.
  unfold is_decimal, digit_value.
  rewrite andb_true_iff, !N.leb_le. lia.
Qed.

(** A string of [n] decimal digits read after [acc] lies in the block of
    [10^n] numbers that starts at [acc * 10^n]. *)
Lemma decimal_value_bound (s : string) :
  ∀ acc v, 0 ≤ acc → decimal_value s acc = Some v →
    acc * 10 ^ Z.of_nat (String.length s) ≤ v
    < (acc + 1) * 10 ^ Z.of_nat (String.length s).
Proof.
  induction s as [|c s IH]; intros acc v Hacc H.
  - cbn in H. injection H as <-. cbn. lia.
  - cbn [decimal_value] in H. destruct (is_decimal c) eqn:D; [| discriminate H].
    pose proof (is_decimal_digit_value c D) as Hd.
    apply IH in H; [| lia].
    cbn [String.length]. rewrite Nat2Z.inj_succ, Z.pow_succ_r by lia.
    assert (0 < 10 ^ Z.of_nat (String.length s)) by (apply Z.pow_pos_nonneg; lia).
    nia.
Qed.

Lemma prefix4_length (s : string) : (String.length (prefix4 s) ≤ 4)%nat.
Proof.
  unfold prefix4.
  destruct s as [|a [|b [|c [|d [|e s]]]]]; cbn; lia.
Qed.

Lemma date_prefix_year_range (m : meteorite) (y : Z) :
  date_prefix_year m = Some y →
  0 ≤ y ≤ 9999 ∧ ∃ s, date m = Some s ∧ (4 ≤ String.length s)%nat.
Proof.
  unfold date_prefix_year. destruct (date m) as [s|]; [| discriminate].
  destruct (4 <=? String.length s)%nat eqn:L; [| discriminate].
  destruct (isdigit (prefix4 s)); [| discriminate].
  cbn [andb]. intros H. split.
  - apply decimal_value_bound in H; [| lia].
    pose proof (prefix4_length s) as Hl.
    assert (10 ^ Z.of_nat (String.length (prefix4 s)) ≤ 10 ^ 4)
      by (apply Z.pow_le_mono_r; lia).
    lia.
  - exists s. split; [reflexivity |]. apply Nat.leb_le, L.
Qed.

Lemma assign_some_inside (lat lng : option Q) (s : string) :
  assign_us_state lat lng = Some s →
  ∃ la ln, lat = Some la ∧ lng = Some ln ∧ inside_box la ln.
Proof.
  destruct lat as [la|]; [| discriminate].
  destruct lng as [ln|]; [| discriminate].
  intros H. exists la, ln. split; [reflexivity |]. split; [reflexivity |].
  destruct (in_box la ln) eqn:E; [apply in_box_inside, E |].
  exfalso. unfold assign_us_state in H. rewrite E in H. discriminate H.
Qed.

End DetailFacts.

Section DetailExtras.


(** X12. Every detail record is consistent: [is_us] is true exactly when
    [us_state] is present; a present [us_state] is one of the 48 codes and
    the record then has both coordinates, inside the bounding box; a present
    [year] is in 0..9999 and the record then keeps its date, of four
    characters at least; and [date] is never the empty string. *)
Theorem detail_record_invariants
    (ms : list meteorite) (recs : list detail_record) (r : detail_record) :
  build_meteorite_detail ms = Ok recs →
  r ∈ recs →
  (d_is_us r = true ↔ is_Some (d_us_state r))
  ∧ (∀ s, d_us_state r = Some s →
          s ∈ codes
          ∧ ∃ la ln, d_latitude r = Some la ∧ d_longitude r = Some ln
                     ∧ inside_box la ln)
  ∧ (∀ y, d_year r = Some y →
          0 ≤ y ≤ 9999
          ∧ ∃ s, d_date r = Some s ∧ (4 ≤ String.length s)%nat)
  ∧ d_date r ≠ Some EmptyString.
Proof.
  intros Hrun Hr. rewrite (detail_shape ms recs Hrun) in Hr.
  apply elem_of_map_inv in Hr as (m & -> & _).
  cbn [detail_view d_is_us d_us_state d_latitude d_longitude d_year d_date].
  split; [apply classified_is_Some |]. split; [| split].
  - intros s Hs. split; [exact (assign_some_in_codes _ _ _ Hs) |].
    exact (assign_some_inside _ _ _ Hs).
  - intros y Hy. destruct (date_prefix_year_range m y Hy) as [Hrange (s & Hs & Hl)].
    split; [exact Hrange |]. exists s. split; [| exact Hl].
    rewrite Hs. rewrite decide_False; [reflexivity |].
    intros [= ->]. cbn in Hl. lia.
  - case_decide as D; [discriminate | exact D].
Qed.

End DetailExtras.

Section DetailExtraExamples.

Lemma detail_record_invariants_witness :
  ∃ recs r,
    build_meteorite_detail sample_meteorites = Ok recs
    ∧ r ∈ recs
    ∧ d_us_state r = Some "CA"
    ∧ d_year r = Some 1969
    ∧ (d_is_us r = true ↔ is_Some (d_us_state r))
    ∧ (∀ s, d_us_state r = Some s →
            s ∈ codes
            ∧ ∃ la ln, d_latitude r = Some la ∧ d_longitude r = Some ln
                       ∧ inside_box la ln)
    ∧ (∀ y, d_year r = Some y →
            0 ≤ y ≤ 9999
            ∧ ∃ s, d_date r = Some s ∧ (4 ≤ String.length s)%nat)
    ∧ d_date r ≠ Some EmptyString.
Proof.
  eexists _, _.
  split; [vm_compute; reflexivity |].
  split; [apply list_elem_of_here |].
  split; [reflexivity |]. split; [reflexivity |].
  eapply (detail_record_invariants sample_meteorites).
  - vm_compute. reflexivity.
  - apply list_elem_of_here.
Defined.

End DetailExtraExamples.

(** ** Sums of UFO counts *)

Section UfoTotals.

Lemma Zsum_map_scale {B : Type} (w : Z) (f : B → Z) (l : list B) :
  Zsum (map (λ b, w * f b) l) = w * Zsum (map f l).
Proof.
  induction l as [|b l IH]; [unfold Zsum; cbn; lia |].
  unfold Zsum in *. cbn [map foldr]. rewrite IH. lia.
Qed.

(** Over keys without repetition, a weight put on one key is counted once. *)
Lemma Zsum_weight {K : Type} `{EqDecision K}
    (o : option K) (w : Z) (ks : list K) :
  NoDup ks →
  Zsum (map (λ k, if decide (o = Some k) then w else 0) ks)
  = match o with
    | Some k => if decide (k ∈ ks) then w else 0
    | None => 0
    end.
Proof.
  intros Hnd.
  rewrite (Zsum_map_ext _ (λ k, w * (if decide (o = Some k) then 1 else 0)))
    by (intros k _; case_decide; lia).
  rewrite Zsum_map_scale, (Zsum_indicator o ks Hnd).
  destruct o as [k|]; [case_decide |]; lia.
Qed.

(** [sum(e.get('count', 0) for e in ufo_by_state)] adds the counts up. *)
Lemma total_count_sum (us : list ufo_state_entry) :
  total_count us = Zsum (map (λ e, get_count (us_count e)) us).
Proof.
  unfold total_count.
  assert (∀ acc, foldl (λ acc e, acc + get_count (us_count e)) acc us
                 = acc + Zsum (map (λ e, get_count (us_count e)) us)) as H.
  { induction us as [|e us IH]; intros acc.
    - unfold Zsum. cbn. lia.
    - cbn [foldl map]. rewrite IH. unfold Zsum. cbn [foldr]. lia. }
  rewrite H. lia.
Qed.

Lemma ufo_state_recorded_cons_distinct
    (e : ufo_state_entry) (rest : list ufo_state_entry) (s : string) :
  ufo_entry_state e ∉ map ufo_entry_state rest →
  default 0 (ufo_state_recorded (e :: rest) s)
  = default 0 (ufo_state_recorded rest s)
    + (if decide (ufo_entry_state e = Some s)
       then get_count (us_count e) else 0).
Proof.
  intros Hfresh. cbn [ufo_state_recorded].
  destruct (ufo_state_recorded rest s) as [c|] eqn:R.
  - rewrite decide_False; [cbn; lia |].
    intros He. apply Hfresh.
    assert (is_Some (ufo_state_recorded rest s)) as Hs by (rewrite R; eauto).
    apply ufo_state_recorded_some in Hs as (e' & He' & Hs').
    rewrite He, <- Hs'. apply elem_of_map_1, He'.
  - case_decide; cbn; lia.
Qed.

(** When no state is named twice, the recorded counts of a list of states
    that has every named state add up to the counts of the entries. *)
Lemma ufo_state_recorded_sum (ks : list string) (us : list ufo_state_entry) :
  NoDup ks →
  NoDup (map ufo_entry_state us) →
  (∀ e, e ∈ us → ∃ s, ufo_entry_state e = Some s ∧ s ∈ ks) →
  Zsum (map (λ s, default 0 (ufo_state_recorded us s)) ks)
  = Zsum (map (λ e, get_count (us_count e)) us).
Proof.
  intros Hks. induction us as [|e us IH]; intros Hnd Hall.
  - cbn [ufo_state_recorded default map]. rewrite Zsum_map_zero. reflexivity.
  - cbn [map] in Hnd. apply NoDup_cons in Hnd as [Hfresh Hnd].
    rewrite (Zsum_map_ext _
      (λ s, default 0 (ufo_state_recorded us s)
            + (if decide (ufo_entry_state e = Some s)
               then get_count (us_count e) else 0)))
      by (intros s _; apply ufo_state_recorded_cons_distinct, Hfresh).
    rewrite Zsum_map_add, (Zsum_weight _ _ ks Hks).
    rewrite IH; [| exact Hnd | intros e' He'; apply Hall; by right].
    destruct (Hall e) as (s & Hs & Hin); [left |].
    rewrite Hs. rewrite decide_True by exact Hin.
    unfold Zsum. cbn [map foldr]. lia.
Qed.

End UfoTotals.

Section MainExtras.

Context {pyfloat : Type}.
Variable truediv : Z → Z → option pyfloat.
Variable round1 : pyfloat → pyfloat.

(** X13. When every UFO state entry has a two-character state and no state
    is named twice, the UFO counts of a returned state table add up to the
    total [main] records for the UFO source: no sighting is lost or counted
    twice. *)
Theorem ufo_sightings_total (ms : list meteorite) (us : list ufo_state_entry)
    (tbl : list (state_entry pyfloat)) (n : Z) :
  Forall (λ e, is_Some (ufo_entry_state e)) us →
  NoDup (map us_state us) →
  build_geographic_comparison truediv round1 ms us = Ok (tbl, n) →
  Zsum (map s_ufo_sightings tbl) = total_count us.
Proof.
  intros Hall Hnd Hrun.
  destruct (geographic_rows truediv round1 ms us tbl n Hrun)
    as (states & Hsorted & Hmem & _ & -> & _).
  rewrite map_map. cbn [s_ufo_sightings]. rewrite total_count_sum.
  rewrite Forall_forall in Hall.
  assert (∀ e, e ∈ us → ufo_entry_state e = us_state e) as Hsame.
  { intros e He. destruct (Hall e He) as [s Hs]. revert Hs.
    unfold ufo_entry_state. destruct (us_state e) as [s'|]; [| discriminate].
    destruct (String.length s' =? 2)%nat; [reflexivity | discriminate]. }
  apply ufo_state_recorded_sum.
  - apply strict_states_NoDup, Hsorted.
  - rewrite (map_ext_in ufo_entry_state us_state us); [exact Hnd |].
    intros e He. apply Hsame, list_elem_of_In, He.
  - intros e He. destruct (Hall e He) as [s Hs]. exists s.
    split; [exact Hs |]. apply Hmem. right.
    apply ufo_state_recorded_some. exists e. split; [exact He | exact Hs].
Qed.


(** X15. The document [main] returns: its three arrays are what the three
    builders return on the same meteorites, the US total is the one of the
    geographic aggregator, the [records] of the meteorite source is the
    number of input records and of detail records, and the [records] of the
    UFO source is the sum of the counts of all state entries, two-character
    state or not. *)
Theorem main_document (created : string) (ms : list meteorite)
    (uy : list ufo_year_entry) (us : list ufo_state_entry) (r : run pyfloat) :
  main truediv round1 created ms uy us = Ok r →
  let d := run_dataset r in
  let md := ds_metadata d in
  build_temporal_comparison ms uy = Ok (ds_temporal_comparison d)
  ∧ build_geographic_comparison truediv round1 ms us
    = Ok (ds_state_comparison d, run_us_meteorites r)
  ∧ build_meteorite_detail ms = Ok (ds_meteorite_detail d)
  ∧ src_records (md_meteorite_falls md) = Z.of_nat (length ms)
  ∧ src_records (md_meteorite_falls md)
    = Z.of_nat (length (ds_meteorite_detail d))
  ∧ src_records (md_ufo_sightings md)
    = Zsum (map (λ e, get_count (us_count e)) us).
Proof.
  unfold main. intros H.
  destruct (build_temporal_comparison ms uy) as [tl|] eqn:Et;
    [| discriminate H].
  destruct (build_geographic_comparison truediv round1 ms us)
    as [[tbl n]|] eqn:Eg; [| discriminate H].
  destruct (build_meteorite_detail ms) as [recs|] eqn:Ed; [| discriminate H].
  cbn [rbind] in H. injection H as <-.
  cbn [run_dataset ds_metadata ds_temporal_comparison ds_state_comparison
       ds_meteorite_detail run_us_meteorites md_meteorite_falls
       md_ufo_sightings src_records fst snd].
  split; [reflexivity |]. split; [reflexivity |]. split; [reflexivity |].
  split; [reflexivity |]. split.
  - rewrite (detail_shape ms recs Ed), length_map. reflexivity.
  - apply total_count_sum.
Qed.

End MainExtras.

Section MainExtraExamples.

Lemma ufo_sightings_total_witness :
  ∃ tbl n,
    build_geographic_comparison checked_div Round1 sample_meteorites
      [ {| us_state := Some "CA"; us_count := Some 4000 |};
        {| us_state := Some "TX"; us_count := Some 20 |};
        {| us_state := Some "AK"; us_count := None |} ] = Ok (tbl, n)
    ∧ Zsum (map s_ufo_sightings tbl) = 4020
    ∧ Zsum (map s_ufo_sightings tbl)
      = total_count
          [ {| us_state := Some "CA"; us_count := Some 4000 |};
            {| us_state := Some "TX"; us_count := Some 20 |};
            {| us_state := Some "AK"; us_count := None |} ].
Proof.
  eexists _, _. split; [vm_compute; reflexivity |].
  split; [reflexivity |].
  apply (ufo_sightings_total checked_div Round1 sample_meteorites
           [ {| us_state := Some "CA"; us_count := Some 4000 |};
             {| us_state := Some "TX"; us_count := Some 20 |};
             {| us_state := Some "AK"; us_count := None |} ] _ 2).
  - apply (bool_decide_unpack _). vm_compute. reflexivity.
  - apply (bool_decide_unpack _). vm_compute. reflexivity.
  - vm_compute. reflexivity.
Defined.

Lemma main_document_witness :
  ∃ r,
    main checked_div Round1 "2026-01-01"
      sample_meteorites sample_ufo_by_year sample_ufo_by_state = Ok r
    ∧ src_records (md_meteorite_falls (ds_metadata (run_dataset r))) = 5
    ∧ src_records (md_ufo_sightings (ds_metadata (run_dataset r))) = 4130
    ∧ build_temporal_comparison sample_meteorites sample_ufo_by_year
      = Ok (ds_temporal_comparison (run_dataset r))
    ∧ build_geographic_comparison checked_div Round1
        sample_meteorites sample_ufo_by_state
      = Ok (ds_state_comparison (run_dataset r), run_us_meteorites r)
    ∧ build_meteorite_detail sample_meteorites
      = Ok (ds_meteorite_detail (run_dataset r))
    ∧ src_records (md_meteorite_falls (ds_metadata (run_dataset r)))
      = Z.of_nat (length sample_meteorites)
    ∧ src_records (md_meteorite_falls (ds_metadata (run_dataset r)))
      = Z.of_nat (length (ds_meteorite_detail (run_dataset r)))
    ∧ src_records (md_ufo_sightings (ds_metadata (run_dataset r)))
      = Zsum (map (λ e, get_count (us_count e)) sample_ufo_by_state).
Proof.
  eexists. split; [vm_compute; reflexivity |].
  split; [reflexivity |]. split; [reflexivity |].
  apply (main_document checked_div Round1 "2026-01-01"
           sample_meteorites sample_ufo_by_year sample_ufo_by_state).
  vm_compute. reflexivity.
Defined.

End MainExtraExamples.

(** ** The report: peak years *)

Section PeakFacts.

Context {A : Type}.
Variable key : A → Z.

(** [max_from] keeps the running best unless a later item has a strictly
    greater key; it returns the first item of the greatest key. *)
Lemma max_from_running (xs : list A) :
  ∀ best,
    (max_from key best xs = best ∧ Forall (λ x, key x ≤ key best) xs)
    ∨ (∃ pre post,
         xs = pre ++ max_from key best xs :: post
         ∧ key best < key (max_from key best xs)
         ∧ Forall (λ x, key x < key (max_from key best xs)) pre
         ∧ Forall (λ x, key x ≤ key (max_from key best xs)) post).
Proof.
  induction xs as [|x xs IH]; intros best.
  - left. split; [reflexivity | constructor].
  - cbn [max_from]. destruct (key best <? key x) eqn:E.
    + apply Z.ltb_lt in E. right.
      destruct (IH x) as [[Hr Hall] | (pre & post & Hxs & Hlt & Hpre & Hpost)].
      * exists [], xs. rewrite Hr. cbn [app].
        split; [reflexivity |]. split; [exact E |].
        split; [constructor | exact Hall].
      * exists (x :: pre), post. cbn [app]. rewrite <- Hxs.
        split; [reflexivity |]. split; [lia |].
        split; [constructor; [exact Hlt | exact Hpre] | exact Hpost].
    + apply Z.ltb_ge in E.
      destruct (IH best) as [[Hr Hall] | (pre & post & Hxs & Hlt & Hpre & Hpost)].
      * left. split; [exact Hr |]. constructor; [exact E | exact Hall].
      * right. exists (x :: pre), post. cbn [app]. rewrite <- Hxs.
        split; [reflexivity |]. split; [exact Hlt |].
        split; [constructor; [lia | exact Hpre] | exact Hpost].
Qed.

(** On a list with an item, [max] returns: the first item of the greatest
    key. *)
Lemma py_max_first (x : A) (xs : list A) :
  ∃ r pre post,
    py_max key (x :: xs) = Ok r
    ∧ x :: xs = pre ++ r :: post
    ∧ Forall (λ y, key y < key r) pre
    ∧ Forall (λ y, key y ≤ key r) post.
Proof.
  exists (max_from key x xs). cbn [py_max].
  destruct (max_from_running xs x)
    as [[Hr Hall] | (pre & post & Hxs & Hlt & Hpre & Hpost)].
  - exists [], xs. rewrite Hr. cbn [app].
    split; [reflexivity |]. split; [reflexivity |].
    split; [constructor | exact Hall].
  - exists (x :: pre), post. cbn [app]. rewrite <- Hxs.
    split; [reflexivity |]. split; [reflexivity |].
    split; [constructor; [exact Hlt | exact Hpre] | exact Hpost].
Qed.

End PeakFacts.

Section PeakExtras.

(** In a timeline of ascending years, the first entry of the greatest count
    is the entry of the earliest year with that count. *)
Lemma first_max_earliest (key : timeline_entry → Z)
    (pre post : list timeline_entry) (r : timeline_entry) :
  StronglySorted Z.lt (map t_year (pre ++ r :: post)) →
  Forall (λ t, key t < key r) pre →
  Forall (λ t, key t ≤ key r) post →
  Forall (λ t, key t ≤ key r ∧ (key t = key r → t_year r ≤ t_year t))
    (pre ++ r :: post).
Proof.
  intros Hsorted Hpre Hpost.
  rewrite map_app in Hsorted. apply StronglySorted_app_1_r in Hsorted.
  cbn [map] in Hsorted. apply StronglySorted_inv in Hsorted as [_ Hlater].
  rewrite Forall_forall in Hlater.
  apply Forall_app. split; [| constructor].
  - eapply Forall_impl; [exact Hpre |]. cbn. intros t Ht. lia.
  - lia.
  - rewrite Forall_forall in Hpost. apply Forall_forall. intros t Ht.
    split; [apply Hpost, Ht |]. intros _.
    assert (t_year r < t_year t) by (apply Hlater, elem_of_map_1, Ht). lia.
Qed.

(** X16. The peak lines of the report never raise: on an empty timeline the
    guard skips them, so [max] is not called on an empty list; otherwise
    each peak is the first entry of the timeline with the greatest count,
    entries before it having strictly less and entries after it no more. *)
Theorem peak_years_first_max :
  peak_years [] = Ok None
  ∧ ∀ (t : timeline_entry) (rest : list timeline_entry),
      ∃ pm pu pre post pre' post',
        peak_years (t :: rest) = Ok (Some (pm, pu))
        ∧ t :: rest = pre ++ pm :: post
        ∧ Forall (λ x, t_meteorite_falls x < t_meteorite_falls pm) pre
        ∧ Forall (λ x, t_meteorite_falls x ≤ t_meteorite_falls pm) post
        ∧ t :: rest = pre' ++ pu :: post'
        ∧ Forall (λ x, t_ufo_sightings x < t_ufo_sightings pu) pre'
        ∧ Forall (λ x, t_ufo_sightings x ≤ t_ufo_sightings pu) post'.
Proof.
  split; [reflexivity |]. intros t rest.
  destruct (py_max_first t_meteorite_falls t rest)
    as (pm & pre & post & Hm & Hsplit & Hpre & Hpost).
  destruct (py_max_first t_ufo_sightings t rest)
    as (pu & pre' & post' & Hu & Hsplit' & Hpre' & Hpost').
  exists pm, pu, pre, post, pre', post'.
  split; [| repeat split; assumption].
  unfold peak_years. rewrite Hm, Hu. reflexivity.
Qed.

(** X17. On the timeline [build_temporal_comparison] returns, when it is not
    empty, the report names for each count the earliest year with the
    greatest count: no entry has more, and an entry with as much is of a
    later or the same year. *)
Theorem peak_year_earliest
    (ms : list meteorite) (us : list ufo_year_entry) (tl : list timeline_entry) :
  build_temporal_comparison ms us = Ok tl →
  tl ≠ [] →
  ∃ pm pu,
    peak_years tl = Ok (Some (pm, pu))
    ∧ pm ∈ tl ∧ pu ∈ tl
    ∧ Forall (λ t, t_meteorite_falls t ≤ t_meteorite_falls pm
                   ∧ (t_meteorite_falls t = t_meteorite_falls pm →
                      t_year pm ≤ t_year t)) tl
    ∧ Forall (λ t, t_ufo_sightings t ≤ t_ufo_sightings pu
                   ∧ (t_ufo_sightings t = t_ufo_sightings pu →
                      t_year pu ≤ t_year t)) tl.
Proof.
  intros Hrun Hne.
  assert (StronglySorted Z.lt (map t_year tl)) as Hsorted.
  { destruct (temporal_rows ms us tl Hrun) as (years & Hs & _ & _ & ->).
    rewrite map_map. cbn [t_year]. rewrite map_id. exact Hs. }
  destruct tl as [|t rest]; [congruence |].
  destruct (py_max_first t_meteorite_falls t rest)
    as (pm & pre & post & Hm & Hsplit & Hpre & Hpost).
  destruct (py_max_first t_ufo_sightings t rest)
    as (pu & pre' & post' & Hu & Hsplit' & Hpre' & Hpost').
  exists pm, pu. split; [unfold peak_years; rewrite Hm, Hu; reflexivity |].
  split; [rewrite Hsplit; apply elem_of_app; right; left |].
  split; [rewrite Hsplit'; apply elem_of_app; right; left |].
  split.
  - rewrite Hsplit in Hsorted |- *.
    exact (first_max_earliest t_meteorite_falls pre post pm Hsorted Hpre Hpost).
  - rewrite Hsplit' in Hsorted |- *.
    exact (first_max_earliest t_ufo_sightings pre' post' pu Hsorted Hpre' Hpost').
Qed.

Lemma peak_year_earliest_witness :
  ∃ tl pm pu,
    build_temporal_comparison sample_meteorites sample_ufo_by_year = Ok tl
    ∧ tl ≠ []
    ∧ peak_years tl = Ok (Some (pm, pu))
    ∧ t_year pm = 1969 ∧ t_year pu = 2000
    ∧ pm ∈ tl ∧ pu ∈ tl
    ∧ Forall (λ t, t_meteorite_falls t ≤ t_meteorite_falls pm
                   ∧ (t_meteorite_falls t = t_meteorite_falls pm →
                      t_year pm ≤ t_year t)) tl
    ∧ Forall (λ t, t_ufo_sightings t ≤ t_ufo_sightings pu
                   ∧ (t_ufo_sightings t = t_ufo_sightings pu →
                      t_year pu ≤ t_year t)) tl.
Proof.
  assert (∃ tl, build_temporal_comparison sample_meteorites sample_ufo_by_year
                = Ok tl ∧ tl ≠ []
                ∧ ∀ pm pu, peak_years tl = Ok (Some (pm, pu)) →
                           t_year pm = 1969 ∧ t_year pu = 2000)
    as (tl & Hrun & Hne & Hpeak).
  { eexists. split; [vm_compute; reflexivity |]. split; [discriminate |].
    intros pm pu H. vm_compute in H. injection H as <- <-.
    split; reflexivity. }
  destruct (peak_year_earliest sample_meteorites sample_ufo_by_year tl Hrun Hne)
    as (pm & pu & Hp & Hrest).
  destruct (Hpeak pm pu Hp) as [Hy1 Hy2].
  exists tl, pm, pu.
  split; [exact Hrun |]. split; [exact Hne |]. split; [exact Hp |].
  split; [exact Hy1 |]. split; [exact Hy2 |]. exact Hrest.
Defined.

End PeakExtras.

(** ** The report: ranking the states *)

Section RankingFacts.

Context {pyfloat : Type}.
Variable flt : pyfloat → pyfloat → bool.

Local Abbreviation row := (state_entry pyfloat).

Lemma with_ratio_cons (s : row) (sd : list row) :
  with_ratio (s :: sd)
  = match s_ufo_per_meteorite s with
    | Some q => (s, q) :: with_ratio sd
    | None => with_ratio sd
    end.
Proof.
  unfold with_ratio. cbn [omap list_omap].
  destruct (s_ufo_per_meteorite s); reflexivity.
Qed.

(** The rows kept for the ranking are the rows with a ratio, in order. *)
Lemma with_ratio_rows (sd : list row) :
  map fst (with_ratio sd)
  = filter (λ s, is_Some (s_ufo_per_meteorite s)) sd.
Proof.
  induction sd as [|s sd IH]; [reflexivity |].
  rewrite with_ratio_cons. destruct (s_ufo_per_meteorite s) as [q|] eqn:E.
  - rewrite filter_cons_True by (rewrite E; eauto).
    cbn [map fst]. rewrite IH. reflexivity.
  - rewrite filter_cons_False by (rewrite E; intros [? ?]; discriminate).
    exact IH.
Qed.

(** Each kept row goes with its own ratio as sort key. *)
Lemma with_ratio_keys (sd : list row) :
  Forall (λ p, s_ufo_per_meteorite p.1 = Some p.2) (with_ratio sd).
Proof.
  induction sd as [|s sd IH]; [constructor |].
  rewrite with_ratio_cons. destruct (s_ufo_per_meteorite s) as [q|] eqn:E.
  - constructor; [exact E | exact IH].
  - exact IH.
Qed.

Lemma insert_by_perm (x : row * pyfloat) (l : list (row * pyfloat)) :
  insert_by flt x l ≡ₚ x :: l.
Proof.
  induction l as [|y l IH]; [reflexivity |].
  cbn [insert_by]. destruct (flt y.2 x.2); [| reflexivity].
  rewrite IH. apply perm_swap.
Qed.

Lemma sort_by_perm (l : list (row * pyfloat)) : sort_by flt l ≡ₚ l.
Proof.
  unfold sort_by. induction l as [|x l IH]; [reflexivity |].
  cbn [foldr]. rewrite insert_by_perm, IH. reflexivity.
Qed.

Lemma sorted_reverse_perm (l : list (row * pyfloat)) :
  sorted_reverse flt l ≡ₚ l.
Proof.
  unfold sorted_reverse.
  rewrite <- Permutation_rev, sort_by_perm, <- Permutation_rev. reflexivity.
Qed.

(** The ranking has the rows with a ratio, each once. *)
Lemma ranked_perm (sd : list row) :
  ranked flt sd ≡ₚ filter (λ s, is_Some (s_ufo_per_meteorite s)) sd.
Proof.
  unfold ranked. rewrite <- with_ratio_rows.
  apply Permutation_map, sorted_reverse_perm.
Qed.

Lemma filter_ext_elem {B : Type} (P Q : B → Prop)
    `{∀ x, Decision (P x)} `{∀ x, Decision (Q x)} (l : list B) :
  (∀ x, x ∈ l → (P x ↔ Q x)) → filter P l = filter Q l.
Proof.
  induction l as [|b l IH]; intros Hext; [reflexivity |].
  assert (filter P l = filter Q l) as IH'
    by (apply IH; intros x Hx; apply Hext; by right).
  destruct (decide (P b)) as [Hp | Hp].
  - rewrite !filter_cons_True; [by rewrite IH' | | exact Hp].
    apply (Hext b); [left | exact Hp].
  - rewrite !filter_cons_False; [exact IH' | | exact Hp].
    intros Hq. apply Hp, (Hext b); [left | exact Hq].
Qed.

Section Ordered.

(** [<] on the keys is a strict weak order, as it is on floats other than
    NaN. *)
Hypothesis flt_asym : ∀ a b, flt a b = true → flt b a = false.
Hypothesis flt_negtrans :
  ∀ a b c, flt b a = false → flt c b = false → flt c a = false.

Lemma insert_by_sorted (x : row * pyfloat) (l : list (row * pyfloat)) :
  StronglySorted (λ a b, flt b.2 a.2 = false) l →
  StronglySorted (λ a b, flt b.2 a.2 = false) (insert_by flt x l).
Proof.
  induction 1 as [|y l Hl IH Hy]; [repeat constructor |].
  cbn [insert_by]. destruct (flt y.2 x.2) eqn:E.
  - constructor; [exact IH |].
    rewrite insert_by_perm. constructor; [apply flt_asym, E | exact Hy].
  - constructor; [constructor; assumption |].
    constructor; [exact E |].
    eapply Forall_impl; [exact Hy |]. cbn. intros z Hz.
    exact (flt_negtrans x.2 y.2 z.2 E Hz).
Qed.

Lemma sort_by_sorted (l : list (row * pyfloat)) :
  StronglySorted (λ a b, flt b.2 a.2 = false) (sort_by flt l).
Proof.
  unfold sort_by. induction l as [|x l IH]; [constructor |].
  cbn [foldr]. apply insert_by_sorted, IH.
Qed.

Lemma rev_sorted {B : Type} (R : relation B) (l : list B) :
  StronglySorted R l → StronglySorted (λ a b, R b a) (rev l).
Proof.
  induction 1 as [|a l Hl IH Ha]; [constructor |].
  cbn [rev]. apply StronglySorted_app_2; [| exact IH | repeat constructor].
  intros x1 x2 Hx1 Hx2. apply list_elem_of_singleton in Hx2 as ->.
  rewrite Forall_forall in Ha. apply Ha.
  apply list_elem_of_In, in_rev, list_elem_of_In, Hx1.
Qed.

Lemma sorted_reverse_sorted (l : list (row * pyfloat)) :
  StronglySorted (λ a b, flt a.2 b.2 = false) (sorted_reverse flt l).
Proof.
  unfold sorted_reverse.
  apply (rev_sorted (λ a b, flt b.2 a.2 = false)), sort_by_sorted.
Qed.

End Ordered.

Lemma omap_keys (l : list (row * pyfloat)) :
  Forall (λ p, s_ufo_per_meteorite p.1 = Some p.2) l →
  omap s_ufo_per_meteorite (map fst l) = map snd l.
Proof.
  induction 1 as [|[s q] l Hp _ IH]; [reflexivity |].
  cbn in Hp. cbn. rewrite Hp. cbn. f_equal. exact IH.
Qed.

End RankingFacts.

Section RankingExtras.

Context {pyfloat : Type}.
Variable truediv : Z → Z → option pyfloat.
Variable round1 : pyfloat → pyfloat.
Variable flt : pyfloat → pyfloat → bool.

(** X18. The ranking of the report, on the table the geographic aggregator
    returns: it has exactly the rows with at least one meteorite, each once,
    so every ranked state is one of the 48 codes and has a ratio; and the
    report prints five of them, or all when there are fewer. This holds
    whatever [<] does on the ratios. *)
Theorem ranked_rows
    (ms : list meteorite) (us : list ufo_state_entry)
    (tbl : list (state_entry pyfloat)) (n : Z) :
  build_geographic_comparison truediv round1 ms us = Ok (tbl, n) →
  ranked flt tbl ≡ₚ filter (λ r, (0 < s_meteorite_falls r)%Z) tbl
  ∧ Forall (λ r, s_state r ∈ codes ∧ is_Some (s_ufo_per_meteorite r))
      (ranked flt tbl)
  ∧ length (top5 flt tbl)
    = (5 `min` length (filter (λ r, (0 < s_meteorite_falls r)%Z) tbl))%nat.
Proof.
  intros Hrun.
  destruct (geographic_rows truediv round1 ms us tbl n Hrun)
    as (states & _ & _ & Hrange & Htbl & _).
  assert (∀ r, r ∈ tbl →
            (is_Some (s_ufo_per_meteorite r) ↔ 0 < s_meteorite_falls r)
            ∧ (0 < s_meteorite_falls r → s_state r ∈ codes)) as Hrow.
  { intros r Hr. rewrite Htbl in Hr.
    apply elem_of_map_inv in Hr as (s & -> & _).
    cbn [s_ufo_per_meteorite s_meteorite_falls s_state]. split.
    - destruct (0 <? state_falls ms s) eqn:E.
      + apply Z.ltb_lt in E. split; [intros _; exact E |].
        intros _. destruct (Hrange s E) as [q ->]. cbn. eauto.
      + apply Z.ltb_ge in E. split; [intros [? H]; discriminate H | lia].
    - intros Hpos. apply state_falls_pos in Hpos as (m & _ & Hm).
      exact (assign_some_in_codes _ _ _ Hm). }
  assert (filter (λ r, is_Some (s_ufo_per_meteorite r)) tbl
          = filter (λ r, (0 < s_meteorite_falls r)%Z) tbl) as Hfilter
    by (apply filter_ext_elem; intros r Hr; apply (Hrow r Hr)).
  pose proof (ranked_perm flt tbl) as Hperm. rewrite Hfilter in Hperm.
  split; [exact Hperm |]. split.
  - rewrite Hperm. apply Forall_forall. intros r Hr.
    apply list_elem_of_filter in Hr as [Hpos Hr].
    destruct (Hrow r Hr) as [Hiff Hcode].
    split; [apply Hcode, Hpos | apply Hiff, Hpos].
  - unfold top5. rewrite length_take, Hperm. reflexivity.
Qed.

(** X19. The ranking is in descending order of the ratio, when [<] orders
    the ratios as it orders floats other than NaN: no ranked row is followed
    by a row of a strictly greater ratio. *)
Theorem ranked_descending (state_data : list (state_entry pyfloat)) :
  (∀ a b, flt a b = true → flt b a = false) →
  (∀ a b c, flt b a = false → flt c b = false → flt c a = false) →
  StronglySorted (λ a b, flt a b = false)
    (omap s_ufo_per_meteorite (ranked flt state_data)).
Proof.
  intros Hasym Hneg. unfold ranked.
  rewrite omap_keys.
  - change (map snd (sorted_reverse flt (with_ratio state_data)))
      with (snd <$> sorted_reverse flt (with_ratio state_data)).
    eapply StronglySorted_fmap;
      [| exact (sorted_reverse_sorted flt Hasym Hneg (with_ratio state_data))].
    intros x y H. exact H.
  - rewrite sorted_reverse_perm. apply with_ratio_keys.
Qed.

End RankingExtras.

Section RankingExamples.

Lemma ranked_rows_witness :
  ∃ tbl n,
    build_geographic_comparison checked_div Round1
      sample_meteorites sample_ufo_by_state = Ok (tbl, n)
    ∧ map s_state (top5 (λ _ _, false) tbl) = ["CA"; "NE"]
    ∧ ranked (λ _ _, false) tbl
      ≡ₚ filter (λ r, (0 < s_meteorite_falls r)%Z) tbl
    ∧ Forall (λ r, s_state r ∈ codes ∧ is_Some (s_ufo_per_meteorite r))
        (ranked (λ _ _, false) tbl)
    ∧ length (top5 (λ _ _, false) tbl)
      = (5 `min` length (filter (λ r, (0 < s_meteorite_falls r)%Z) tbl))%nat.
Proof.
  eexists _, _.
  split; [vm_compute; reflexivity |].
  split; [reflexivity |].
  eapply (ranked_rows checked_div Round1 (λ _ _, false)
            sample_meteorites sample_ufo_by_state).
  vm_compute. reflexivity.
Defined.

Lemma ranked_descending_witness :
  map s_state
    (ranked Z.ltb
       [ {| s_state := "CA"; s_meteorite_falls := 2; s_ufo_sightings := 10;
            s_ufo_per_meteorite := Some 5 |};
         {| s_state := "NE"; s_meteorite_falls := 1; s_ufo_sightings := 9;
            s_ufo_per_meteorite := Some 9 |};
         {| s_state := "NV"; s_meteorite_falls := 0; s_ufo_sightings := 3;
            s_ufo_per_meteorite := None |};
         {| s_state := "TX"; s_meteorite_falls := 1; s_ufo_sightings := 5;
            s_ufo_per_meteorite := Some 5 |} ])
  = ["NE"; "CA"; "TX"]
  ∧ StronglySorted (λ a b, (a <? b) = false)
      (omap s_ufo_per_meteorite
         (ranked Z.ltb
            [ {| s_state := "CA"; s_meteorite_falls := 2; s_ufo_sightings := 10;
                 s_ufo_per_meteorite := Some 5 |};
              {| s_state := "NE"; s_meteorite_falls := 1; s_ufo_sightings := 9;
                 s_ufo_per_meteorite := Some 9 |};
              {| s_state := "NV"; s_meteorite_falls := 0; s_ufo_sightings := 3;
                 s_ufo_per_meteorite := None |};
              {| s_state := "TX"; s_meteorite_falls := 1; s_ufo_sightings := 5;
                 s_ufo_per_meteorite := Some 5 |} ])).
Proof.
  split; [reflexivity |].
  apply (ranked_descending Z.ltb).
  - intros a b. rewrite Z.ltb_lt, Z.ltb_ge. lia.
  - intros a b c. rewrite !Z.ltb_ge. lia.
Defined.

End RankingExamples.

(** ** What the geographic aggregator reads *)

Section GeographicFields.

Context {pyfloat : Type}.
Variable truediv : Z → Z → option pyfloat.
Variable round1 : pyfloat → pyfloat.

Lemma state_falls_coordinates (ms : list meteorite) (s : string) :
  state_falls ms s
  = Z.of_nat (length
      (filter (λ p, assign_us_state p.1 p.2 = Some s)
         (map (λ m, (latitude m, longitude m)) ms))).
Proof. unfold state_falls. rewrite length_filter_map. reflexivity. Qed.

Lemma classified_coordinates (ms : list meteorite) :
  length (filter (λ m, classified m = true) ms)
  = length
      (filter (λ p, is_Some (assign_us_state p.1 p.2))
         (map (λ m, (latitude m, longitude m)) ms)).
Proof.
  rewrite length_filter_map. f_equal.
  apply list_filter_iff. intros m. apply classified_is_Some.
Qed.

(** X20. The geographic aggregator reads the coordinates of a meteorite and
    nothing else: two lists with the same coordinates, record by record,
    give the same state table and US total, whatever their dates are. So no
    year bound applies to the state counts, and a date that makes the other
    two builders raise does not disturb this one. *)
Theorem geographic_reads_coordinates
    (ms ms' : list meteorite) (us : list ufo_state_entry) :
  map (λ m, (latitude m, longitude m)) ms
  = map (λ m, (latitude m, longitude m)) ms' →
  build_geographic_comparison truediv round1 ms us
  = build_geographic_comparison truediv round1 ms' us.
Proof.
  intros Hsame.
  destruct (geographic_shape truediv round1 ms us)
    as (met & ufo & Hmet & Hufo & ->).
  destruct (geographic_shape truediv round1 ms' us)
    as (met' & ufo' & Hmet' & Hufo' & ->).
  assert (met = met') as ->.
  { apply map_eq. intros s.
    rewrite Hmet, Hmet', !state_falls_coordinates, Hsame. reflexivity. }
  assert (ufo = ufo') as ->.
  { apply map_eq. intros s. rewrite Hufo, Hufo'. reflexivity. }
  rewrite !classified_coordinates, Hsame. reflexivity.
Qed.

End GeographicFields.

Section GeographicFieldsExample.

Lemma geographic_reads_coordinates_witness :
  build_meteorite_detail
    [ fall (Some superscript_date) (Some (3678 # 100)) (Some (-11942 # 100)) ]
  = Raise ValueError
  ∧ build_geographic_comparison checked_div Round1
      [ fall (Some superscript_date) (Some (3678 # 100)) (Some (-11942 # 100)) ]
      sample_ufo_by_state
    = build_geographic_comparison checked_div Round1
        [ fall (Some "1850-06-01") (Some (3678 # 100)) (Some (-11942 # 100)) ]
        sample_ufo_by_state.
Proof.
  split; [vm_compute; reflexivity |].
  apply (geographic_reads_coordinates checked_div Round1
           [ fall (Some superscript_date)
               (Some (3678 # 100)) (Some (-11942 # 100)) ]
           [ fall (Some "1850-06-01")
               (Some (3678 # 100)) (Some (-11942 # 100)) ]).
  reflexivity.
Defined.

End GeographicFieldsExample.

(** ** The outcomes on sample inputs *)

Section OutcomeExamples.

Lemma temporal_outcome_witness :
  build_temporal_comparison [ fall (Some superscript_date) None None ]
    [ {| uy_year := YStr "1995"; uy_count := Some 10 |} ]
  = Raise ValueError
  ∧ build_temporal_comparison sample_meteorites
      [ {| uy_year := YStr "1995"; uy_count := Some 10 |} ]
    = Raise TypeError
  ∧ ∃ tl,
      build_temporal_comparison sample_meteorites sample_ufo_by_year = Ok tl.
Proof.
  split; [| split].
  - apply (proj1 (temporal_outcome _ _)).
    apply (bool_decide_unpack _). vm_compute. reflexivity.
  - apply (proj1 (proj2 (temporal_outcome _ _)));
      apply (bool_decide_unpack _); vm_compute; reflexivity.
  - apply (proj2 (proj2 (temporal_outcome _ _)));
      apply (bool_decide_unpack _); vm_compute; reflexivity.
Defined.



End OutcomeExamples.
